(** * hackernews-node-ts: the GraphQL resolvers of [src/schema.ts]

    A shallow embedding of the validation helpers and resolvers of the
    final schema (the file with [parseIntSafe], [validateAndNormalizeUrl],
    [applyTakeConstraints], [applySkipConstraints] and the [resolvers]
    object), together with the parts of the JavaScript runtime they call
    ([String.prototype.trim], [parseInt], [RegExp] matching, template
    literals) and a reference model of the Prisma store behind
    [context.prisma]. *)

From Stdlib Require Import ZArith NArith Bool Ascii String List Lia.
From Stdlib Require Import DecimalPos DecimalString Permutation Sorted.
Import ListNotations.

Set Implicit Arguments.

(* ===================================================================== *)
(** * JavaScript runtime *)
(* ===================================================================== *)

Module JS.

(** A JavaScript string is a sequence of UTF-16 code units. *)
Definition codeunit := N.
Definition jsstring := list codeunit.

Definition ch (a : ascii) : codeunit := N_of_ascii a.
Arguments ch a%_char.

(** ASCII literals of the source text. *)
Definition js (s : string) : jsstring := map N_of_ascii (list_ascii_of_string s).
Arguments js s%_string.

Fixpoint jsstring_eqb (a b : jsstring) : bool :=
  match a, b with
  | [], [] => true
  | x :: a', y :: b' => N.eqb x y && jsstring_eqb a' b'
  | _, _ => false
  end.

(** ** Numbers

    The resolvers only ever see integer-valued numbers: GraphQL [Int]
    arguments, Prisma [Int] columns and the results of [parseInt].  A
    number is therefore a NaN, an integer-valued double, the negative zero
    or an infinity. *)
Inductive number : Type :=
| NaN
| Num (z : Z)
| NegZero
| Infinity (negative : bool).

Definition number_eqb (a b : number) : bool :=
  match a, b with
  | NaN, NaN => true
  | Num x, Num y => Z.eqb x y
  | NegZero, NegZero => true
  | Infinity x, Infinity y => Bool.eqb x y
  | _, _ => false
  end.

(** Round a natural number to the nearest value with a 53-bit significand,
    ties to even. *)
Definition round53 (n : N) : N :=
  if (n <=? 2 ^ 53)%N then n
  else
    let e := (N.log2 n - 52)%N in
    let q := N.shiftr n e in
    let r := (n mod 2 ^ e)%N in
    let half := (2 ^ (e - 1))%N in
    let q' := if (half <? r)%N || ((r =? half)%N && N.odd q) then (q + 1)%N else q in
    N.shiftl q' e.

(** The Number value for a non-zero mathematical integer. *)
Definition F (z : Z) : number :=
  let m := round53 (Z.abs_N z) in
  if (2 ^ 1024 <=? m)%N then Infinity (z <? 0)%Z
  else Num (Z.sgn z * Z.of_N m).

(** [ToInt32] on an integer-valued argument. *)
Definition ToInt32 (z : Z) : Z := ((z + 2 ^ 31) mod 2 ^ 32 - 2 ^ 31)%Z.

(** [Number::toString] in radix 10, on an integer (what a template literal
    prints for a GraphQL [Int]). *)
Definition Number_toString (z : Z) : jsstring :=
  js (NilZero.string_of_int (Z.to_int z)).

(** ** White space and [trim] *)

(** WhiteSpace and LineTerminator code units. *)
Definition isWhiteSpace (c : codeunit) : bool :=
  ((9 <=? c) && (c <=? 13)            (* TAB LF VT FF CR *)
   || (c =? 32) || (c =? 160)         (* SP NBSP *)
   || (c =? 5760)                     (* U+1680 *)
   || ((8192 <=? c) && (c <=? 8202))  (* U+2000 .. U+200A *)
   || (c =? 8232) || (c =? 8233)      (* LS PS *)
   || (c =? 8239) || (c =? 8287)      (* U+202F U+205F *)
   || (c =? 12288) || (c =? 65279))%N (* U+3000 U+FEFF *).

Fixpoint trimStart (s : jsstring) : jsstring :=
  match s with
  | c :: s' => if isWhiteSpace c then trimStart s' else s
  | [] => []
  end.

Definition trimEnd (s : jsstring) : jsstring := rev (trimStart (rev s)).

Definition trim (s : jsstring) : jsstring := trimEnd (trimStart s).

Fixpoint startsWith (p s : jsstring) : option jsstring :=
  match p, s with
  | [], _ => Some s
  | a :: p', b :: s' => if (a =? b)%N then startsWith p' s' else None
  | _ :: _, [] => None
  end.

(** ** [parseInt] *)

(** The value of a code unit as a digit: [0-9], [a-z] and [A-Z]. *)
Definition digitValue (c : codeunit) : option Z :=
  if ((48 <=? c) && (c <=? 57))%N then Some (Z.of_N c - 48)%Z
  else if ((97 <=? c) && (c <=? 122))%N then Some (Z.of_N c - 87)%Z
  else if ((65 <=? c) && (c <=? 90))%N then Some (Z.of_N c - 55)%Z
  else None.

Definition isRadixDigit (R : Z) (c : codeunit) : bool :=
  match digitValue c with
  | Some d => (d <? R)%Z
  | None => false
  end.

Fixpoint takeWhile (p : codeunit -> bool) (s : jsstring) : jsstring :=
  match s with
  | c :: s' => if p c then c :: takeWhile p s' else []
  | [] => []
  end.

Definition mathInt (R : Z) (digits : jsstring) : Z :=
  fold_left (fun acc c => acc * R + match digitValue c with Some d => d | None => 0 end)%Z
            digits 0%Z.

(** [parseInt(string, radix)]; [radix = None] is an omitted radix. *)
Definition parseInt (input : jsstring) (radix : option Z) : number :=
  let S0 := trimStart input in
  let negative := match S0 with c :: _ => (c =? ch "-")%N | [] => false end in
  let S1 := match S0 with
            | c :: rest => if (c =? ch "+")%N || (c =? ch "-")%N then rest else S0
            | [] => S0
            end in
  let R0 := match radix with Some r => ToInt32 r | None => 0%Z end in
  if negb (R0 =? 0)%Z && ((R0 <? 2)%Z || (36 <? R0)%Z) then NaN
  else
    let stripPrefix := (R0 =? 0)%Z || (R0 =? 16)%Z in
    let R1 := if (R0 =? 0)%Z then 10%Z else R0 in
    let hex := match S1 with
               | a :: b :: rest =>
                   if stripPrefix && (a =? ch "0")%N && ((b =? ch "x")%N || (b =? ch "X")%N)
                   then Some rest else None
               | _ => None
               end in
    let S2 := match hex with Some rest => rest | None => S1 end in
    let R := match hex with Some _ => 16%Z | None => R1 end in
    let digits := takeWhile (isRadixDigit R) S2 in
    match digits with
    | [] => NaN
    | _ :: _ =>
        let m := mathInt R digits in
        if (m =? 0)%Z then (if negative then NegZero else Num 0)
        else F (if negative then - m else m)
    end.

(** ** Regular expressions

    The fragment the source's patterns are written in: the assertions [^],
    [$] and [\b], literal text, a character class under a greedy
    quantifier, an optional group and concatenation.  Capture groups do not
    change whether a pattern matches and are not represented. *)

Inductive class_item : Type :=
| One (c : codeunit)
| Range (lo hi : codeunit).

Definition charclass := list class_item.

Definition in_item (c : codeunit) (i : class_item) : bool :=
  match i with
  | One x => (c =? x)%N
  | Range lo hi => ((lo <=? c) && (c <=? hi))%N
  end.

Definition in_class (cls : charclass) (c : codeunit) : bool :=
  existsb (in_item c) cls.

Inductive regex : Type :=
| Bol                                                   (* ^ *)
| Eol                                                   (* $ *)
| WordB                                                 (* \b *)
| Lit (s : jsstring)                                    (* literal text *)
| Rep (cls : charclass) (min : nat) (max : option nat)  (* [...]{min,max} *)
| Opt (r : regex)                                       (* r? *)
| Cat (r1 r2 : regex).

(** A matcher state: the code unit before the current position, if any,
    and the input still to be read. *)
Definition mstate : Type := option codeunit * jsstring.

(** [\w] without the [u] and [i] flags. *)
Definition wordChars : charclass :=
  [Range (ch "a") (ch "z"); Range (ch "A") (ch "Z"); Range (ch "0") (ch "9"); One (ch "_")].

Definition isWordChar (c : option codeunit) : bool :=
  match c with
  | Some x => in_class wordChars x
  | None => false
  end.

Definition lastOr (prev : option codeunit) (s : jsstring) : option codeunit :=
  match rev s with
  | c :: _ => Some c
  | [] => prev
  end.

(** The ways a greedy [[...]{min,max}] can match, longest first. *)
Fixpoint runRep (cls : charclass) (min : nat) (max : option nat)
         (prev : option codeunit) (s : jsstring) : list mstate :=
  let stop := match min with O => [(prev, s)] | S _ => [] end in
  match s with
  | c :: s' =>
      let more := match max with Some O => false | _ => true end in
      if in_class cls c && more
      then runRep cls (Nat.pred min) (option_map Nat.pred max) (Some c) s' ++ stop
      else stop
  | [] => stop
  end.

(** All the ways [r] can match at a state, in backtracking order. *)
Fixpoint run (r : regex) (st : mstate) : list mstate :=
  match r with
  | Bol => match fst st with None => [st] | Some _ => [] end
  | Eol => match snd st with [] => [st] | _ :: _ => [] end
  | WordB =>
      if xorb (isWordChar (fst st)) (isWordChar (hd_error (snd st))) then [st] else []
  | Lit l =>
      match startsWith l (snd st) with
      | Some rest => [(lastOr (fst st) l, rest)]
      | None => []
      end
  | Rep cls min max => runRep cls min max (fst st) (snd st)
  | Opt r' => run r' st ++ [st]
  | Cat r1 r2 => flat_map (run r2) (run r1 st)
  end.

Definition matchesAt (r : regex) (st : mstate) : bool :=
  match run r st with
  | [] => false
  | _ :: _ => true
  end.

Fixpoint search (r : regex) (prev : option codeunit) (s : jsstring) : bool :=
  matchesAt r (prev, s)
  || match s with
     | c :: s' => search r (Some c) s'
     | [] => false
     end.

(** [RegExp.prototype.test], and whether [String.prototype.match] returns
    a match, for a pattern without flags. *)
Definition test (r : regex) (s : jsstring) : bool := search r None s.

End JS.

Import JS.

Declare Scope regex_scope.
Delimit Scope regex_scope with regex.
Infix ">>" := Cat (at level 61, right associativity) : regex_scope.

(* ===================================================================== *)
(** * Validation helpers of [schema.ts] *)
(* ===================================================================== *)

(** What a resolver can throw, or reject its promise with. *)
Inductive Thrown : Type :=
| GraphQLError (message : jsstring)
| PrismaClientKnownRequestError (code : jsstring) (message : jsstring)
| OtherError (message : jsstring).

(** The outcome of a call that may throw. *)
Definition outcome (A : Type) : Type := (Thrown + A)%type.

Definition digit : charclass := [Range (ch "0") (ch "9")].

(** "/^(\d+)$/" *)
Definition re_digits : regex :=
  (Bol >> Rep digit 1 None >> Eol)%regex.

Definition parseIntSafe (value : jsstring) : option number :=
  if test re_digits value then Some (parseInt value (Some 10%Z))
  else None.

(** "[-a-zA-Z0-9@:%._\+~#=]" *)
Definition hostChars : charclass :=
  [One (ch "-"); Range (ch "a") (ch "z"); Range (ch "A") (ch "Z"); Range (ch "0") (ch "9");
   One (ch "@"); One (ch ":"); One (ch "%"); One (ch "."); One (ch "_"); One (ch "+");
   One (ch "~"); One (ch "#"); One (ch "=")].

(** "[a-zA-Z0-9()]" *)
Definition tldChars : charclass :=
  [Range (ch "a") (ch "z"); Range (ch "A") (ch "Z"); Range (ch "0") (ch "9");
   One (ch "("); One (ch ")")].

(** "[-a-zA-Z0-9()@:%_\+.~#?&//=]" *)
Definition pathChars : charclass :=
  [One (ch "-"); Range (ch "a") (ch "z"); Range (ch "A") (ch "Z"); Range (ch "0") (ch "9");
   One (ch "("); One (ch ")"); One (ch "@"); One (ch ":"); One (ch "%"); One (ch "_");
   One (ch "+"); One (ch "."); One (ch "~"); One (ch "#"); One (ch "?"); One (ch "&");
   One (ch "/"); One (ch "/"); One (ch "=")].

(** "/^https?:\/\//" *)
Definition re_scheme : regex :=
  (Bol >> Lit (js "http") >> Opt (Lit (js "s")) >> Lit (js "://"))%regex.

(** The part both URL patterns share; with H, T and P for the three
    classes above it reads "(www\.)?H{1,256}\.T{1,6}\bP*$" (the source
    puts P* in a capture group). *)
Definition re_host : regex :=
  (Opt (Lit (js "www.")) >> Rep hostChars 1 (Some 256) >> Lit (js ".")
   >> Rep tldChars 1 (Some 6) >> WordB >> Rep pathChars 0 None >> Eol)%regex.

(** The pattern for a URL with its protocol. *)
Definition re_url : regex :=
  (Bol >> Lit (js "http") >> Opt (Lit (js "s")) >> Lit (js "://") >> re_host)%regex.

(** The pattern for a domain-only URL. *)
Definition re_domain : regex := (Bol >> re_host)%regex.

Definition validateAndNormalizeUrl (url : jsstring) : outcome jsstring :=
  let trimmedUrl := trim url in
  if test re_scheme trimmedUrl then
    if negb (test re_url trimmedUrl) then inl (GraphQLError (js "Invalid URL format."))
    else inr trimmedUrl
  else
    if negb (test re_domain trimmedUrl) then inl (GraphQLError (js "Invalid domain format."))
    else inr (js "https://" ++ trimmedUrl).

Definition applyTakeConstraints (min max value : Z) : outcome Z :=
  if (value <? min)%Z || (max <? value)%Z then
    inl (GraphQLError
           (js "'take' argument value '" ++ Number_toString value
            ++ js "' is outside the valid range of '" ++ Number_toString min
            ++ js "' to '" ++ Number_toString max ++ js "'."))
  else inr value.

Definition applySkipConstraints (value : Z) : outcome Z :=
  if (value <? 0)%Z then
    inl (GraphQLError
           (js "'skip' argument value '" ++ Number_toString value
            ++ js "' should be greater than or equal to 0."))
  else inr value.


(* ===================================================================== *)
(** * Records and the store interface *)
(* ===================================================================== *)

(** The rows of [prisma/schema.prisma]; [createdAt] in milliseconds. *)
Record Link : Type := mkLink {
  link_id : Z;
  link_createdAt : Z;
  link_description : jsstring;
  link_url : jsstring
}.

Record Comment : Type := mkComment {
  comment_id : Z;
  comment_createdAt : Z;
  comment_body : jsstring;
  comment_linkId : Z
}.

(** A promise over a store of type [S]: running it yields a resolved value
    or a rejection, and the store it leaves behind. *)
Definition Promise (S A : Type) : Type := S -> outcome A * S.

Definition resolve {S A} (a : A) : Promise S A := fun s => (inr a, s).

Definition reject {S A} (e : Thrown) : Promise S A := fun s => (inl e, s).

(** A synchronous call inside an [async] function: a throw rejects. *)
Definition sync {S A} (r : outcome A) : Promise S A := fun s => (r, s).

(** [await] *)
Definition bind {S A B} (m : Promise S A) (k : A -> Promise S B) : Promise S B :=
  fun s => match m s with
           | (inr a, s') => k a s'
           | (inl e, s') => (inl e, s')
           end.

(** [Promise.prototype.catch] *)
Definition catch {S A} (m : Promise S A) (h : Thrown -> Promise S A) : Promise S A :=
  fun s => match m s with
           | (inr a, s') => (inr a, s')
           | (inl e, s') => h e s'
           end.

Notation "x <- m ;; k" := (bind m (fun x => k))
  (at level 62, m at next level, right associativity).

(** The [where], [orderBy] and [data] arguments the resolvers build. *)
Inductive StringFilter : Type :=
| contains (needle : jsstring).

Inductive LinkFieldInput : Type :=
| description (f : StringFilter)
| url (f : StringFilter).

Inductive LinkWhereInput : Type :=
| WhereAny                                  (* {} *)
| OR (alternatives : list LinkFieldInput).

Record LinkFindManyArgs : Type := {
  findMany_where : LinkWhereInput;
  findMany_skip : Z;
  findMany_take : Z
}.

Inductive SortOrder : Type := asc | desc.

Record CommentFindManyArgs : Type := {
  orderBy_createdAt : SortOrder;
  where_linkId : Z
}.

Record LinkCreateInput : Type := {
  data_url : jsstring;
  data_description : jsstring
}.

Record CommentCreateInput : Type := {
  data_body : jsstring;
  data_linkId : number
}.

(** [context.prisma]: the calls of the Prisma client the resolvers make. *)
Class PrismaClient (S : Type) : Type := {
  link_findMany : LinkFindManyArgs -> Promise S (list Link);
  link_findUnique : number -> Promise S (option Link);
  link_create : LinkCreateInput -> Promise S Link;
  comment_findMany : CommentFindManyArgs -> Promise S (list Comment);
  comment_findUnique : number -> Promise S (option Comment);
  comment_create : CommentCreateInput -> Promise S Comment
}.

(* ===================================================================== *)
(** * The resolvers *)
(* ===================================================================== *)

(** [args.filterNeedle ?]: an absent and an empty string are falsy. *)
Definition truthy (s : option jsstring) : option jsstring :=
  match s with
  | Some (c :: r) => Some (c :: r)
  | _ => None
  end.

(** [x ?? d] *)
Definition nullish {A} (x : option A) (d : A) : A :=
  match x with
  | Some v => v
  | None => d
  end.

(** [err instanceof Prisma.PrismaClientKnownRequestError && err.code === 'P2003'] *)
Definition isForeignKeyViolation (err : Thrown) : bool :=
  match err with
  | PrismaClientKnownRequestError code _ => jsstring_eqb code (js "P2003")
  | _ => false
  end.

Section Resolvers.

Context {S : Type} {prisma : PrismaClient S}.

(** [Query.feed] *)
Definition feed (filterNeedle : option jsstring) (skip take : option Z)
  : Promise S (list Link) :=
  let where_ :=
    match truthy filterNeedle with
    | Some needle => OR [description (contains needle); url (contains needle)]
    | None => WhereAny
    end in
  take' <- sync (applyTakeConstraints 1 50 (nullish take 30%Z)) ;;
  skip' <- sync (applySkipConstraints (nullish skip 0%Z)) ;;
  link_findMany {| findMany_where := where_;
                   findMany_skip := skip';
                   findMany_take := take' |}.

(** [Query.comment] *)
Definition comment (id : jsstring) : Promise S (option Comment) :=
  comment_findUnique (parseInt id None).

(** [Query.link] *)
Definition link (id : jsstring) : Promise S (option Link) :=
  link_findUnique (parseInt id None).

(** [Link.comments] *)
Definition Link_comments (parent : Link) : Promise S (list Comment) :=
  comment_findMany {| orderBy_createdAt := desc;
                      where_linkId := link_id parent |}.

(** [Comment.link] *)
Definition Comment_link (parent : Comment) : Promise S (option Link) :=
  link_findUnique (Num (comment_linkId parent)).

(** [Mutation.postLink] *)
Definition postLink (url description : jsstring) : Promise S Link :=
  normalizedUrl <- sync (validateAndNormalizeUrl url) ;;
  match description with
  | [] => reject (GraphQLError (js "Cannot post link with empty description."))
  | _ :: _ =>
      newLink <- link_create {| data_url := normalizedUrl;
                                data_description := description |} ;;
      resolve newLink
  end.

(** [Mutation.postCommentOnLink] *)
Definition postCommentOnLink (linkId body : jsstring) : Promise S Comment :=
  match parseIntSafe linkId with
  | None =>
      reject (GraphQLError
                (js "Cannot post comment on non-existing link with id '" ++ linkId ++ js "'"))
  | Some _ =>
      match body with
      | [] => reject (GraphQLError (js "Cannot post empty comment."))
      | _ :: _ =>
          newComment <-
            catch (comment_create {| data_body := body;
                                     data_linkId := parseInt linkId None |})
                  (fun err =>
                     if isForeignKeyViolation err then
                       reject (GraphQLError
                                 (js "Cannot post comment on non-existing link with id '"
                                  ++ linkId ++ js "'."))
                     else reject err) ;;
          resolve newComment
      end
  end.

End Resolvers.

(* ===================================================================== *)
(** * A reference store *)
(* ===================================================================== *)

Module Store.

(** Modelled from the spec: the record store adapter of section 4.2 (the
    Prisma client generated from [prisma/schema.prisma] and the SQLite
    engine behind it are not part of the sources).  The store holds the two
    tables in insertion order, the last id each table's autoincrement
    handed out, and the clock [createdAt] defaults to. *)
Record Db : Type := mkDb {
  links : list Link;
  comments : list Comment;
  linkSeq : Z;
  commentSeq : Z;
  now : Z
}.

Definition empty : Db :=
  {| links := []; comments := []; linkSeq := 0; commentSeq := 0; now := 0 |}.

(** Time passing between requests. *)
Definition tick (dt : Z) (db : Db) : Db :=
  {| links := links db; comments := comments db;
     linkSeq := linkSeq db; commentSeq := commentSeq db;
     now := now db + Z.max 0 dt |}.

Section Collation.

(** Modelled from the spec: the store's default text comparison, to which
    the spec delegates the case sensitivity of the substring filter. *)
Variable collate : codeunit -> codeunit -> bool.

(** Modelled from the spec: [needle] is a prefix of [text], code unit by
    code unit under the store's comparison. *)
Fixpoint prefixb (needle text : jsstring) : bool :=
  match needle, text with
  | [], _ => true
  | a :: needle', b :: text' => collate a b && prefixb needle' text'
  | _ :: _, [] => false
  end.

(** Modelled from the spec: "contains it as a substring". *)
Fixpoint containsb (needle text : jsstring) : bool :=
  prefixb needle text
  || match text with
     | _ :: text' => containsb needle text'
     | [] => false
     end.

Definition fieldHolds (f : LinkFieldInput) (l : Link) : bool :=
  match f with
  | description (contains needle) => containsb needle (link_description l)
  | url (contains needle) => containsb needle (link_url l)
  end.

(** Modelled from the spec: an absent filter puts no restriction. *)
Definition whereHolds (w : LinkWhereInput) (l : Link) : bool :=
  match w with
  | WhereAny => true
  | OR alternatives => existsb (fun f => fieldHolds f l) alternatives
  end.

(** Modelled from the spec: [listLinks] filters, then skips, then takes. *)
Definition listLinks (args : LinkFindManyArgs) (db : Db) : list Link :=
  firstn (Z.to_nat (findMany_take args))
         (skipn (Z.to_nat (findMany_skip args))
                (filter (whereHolds (findMany_where args)) (links db))).

(** Modelled from the spec: [findLinkById]; a key that is no integer
    (the NaN of a lenient parse) is a lookup miss. *)
Definition findLinkById (id : number) (db : Db) : option Link :=
  match id with
  | Num z => find (fun l => (link_id l =? z)%Z) (links db)
  | _ => None
  end.

(** Modelled from the spec: [findCommentById]. *)
Definition findCommentById (id : number) (db : Db) : option Comment :=
  match id with
  | Num z => find (fun c => (comment_id c =? z)%Z) (comments db)
  | _ => None
  end.

(** Newest first; comments of equal [createdAt] keep their order. *)
Fixpoint insertDesc (c : Comment) (l : list Comment) : list Comment :=
  match l with
  | [] => [c]
  | x :: l' =>
      if (comment_createdAt x <? comment_createdAt c)%Z then c :: x :: l'
      else x :: insertDesc c l'
  end.

Fixpoint insertAsc (c : Comment) (l : list Comment) : list Comment :=
  match l with
  | [] => [c]
  | x :: l' =>
      if (comment_createdAt c <? comment_createdAt x)%Z then c :: x :: l'
      else x :: insertAsc c l'
  end.

Definition sortByCreatedAt (o : SortOrder) (l : list Comment) : list Comment :=
  match o with
  | desc => fold_right insertDesc [] l
  | asc => fold_right insertAsc [] l
  end.

(** Modelled from the spec: [listCommentsForLink], ordered by [createdAt]. *)
Definition listCommentsForLink (args : CommentFindManyArgs) (db : Db) : list Comment :=
  sortByCreatedAt (orderBy_createdAt args)
    (filter (fun c => (comment_linkId c =? where_linkId args)%Z) (comments db)).

(** Modelled from the spec: [createLink] assigns id and timestamp. *)
Definition createLink (data : LinkCreateInput) (db : Db) : Link * Db :=
  let l := {| link_id := linkSeq db + 1;
              link_createdAt := now db;
              link_description := data_description data;
              link_url := data_url data |} in
  (l, {| links := links db ++ [l]; comments := comments db;
         linkSeq := linkSeq db + 1; commentSeq := commentSeq db;
         now := now db |}).

(** Modelled from the spec: [createComment] assigns id and timestamp, and
    fails with a foreign-key violation (Prisma's error code P2003) when
    [linkId] references no existing Link. *)
Definition createComment (data : CommentCreateInput) (db : Db) : outcome Comment * Db :=
  match findLinkById (data_linkId data) db with
  | None =>
      (inl (PrismaClientKnownRequestError (js "P2003") (js "Foreign key constraint failed")),
       db)
  | Some l =>
      let c := {| comment_id := commentSeq db + 1;
                  comment_createdAt := now db;
                  comment_body := data_body data;
                  comment_linkId := link_id l |} in
      (inr c, {| links := links db; comments := comments db ++ [c];
                 linkSeq := linkSeq db; commentSeq := commentSeq db + 1;
                 now := now db |})
  end.

(** The reference store as a Prisma client. *)
Definition client : PrismaClient Db := {|
  link_findMany args := fun db => (inr (listLinks args db), db);
  link_findUnique id := fun db => (inr (findLinkById id db), db);
  link_create data := fun db => let (l, db') := createLink data db in (inr l, db');
  comment_findMany args := fun db => (inr (listCommentsForLink args db), db);
  comment_findUnique id := fun db => (inr (findCommentById id db), db);
  comment_create data := createComment data
|}.

End Collation.

(** The store's invariant: ids are positive and at most the sequence. *)
Definition wf (db : Db) : Prop :=
  (0 <= linkSeq db)%Z /\ (0 <= commentSeq db)%Z
  /\ Forall (fun l => 0 < link_id l <= linkSeq db)%Z (links db)
  /\ Forall (fun c => 0 < comment_id c <= commentSeq db)%Z (comments db).

End Store.

(* ===================================================================== *)
(** * Specification-side notions *)
(* ===================================================================== *)

(** An ASCII decimal digit. *)
Definition isAsciiDigit (c : codeunit) : bool := ((48 <=? c) && (c <=? 57))%N.

(** A string of one or more ASCII digits. *)
Definition allDigits (s : jsstring) : bool :=
  match s with
  | [] => false
  | _ :: _ => forallb isAsciiDigit s
  end.

(** The integer a decimal numeral denotes, most significant digit first. *)
Fixpoint valueOf (s : jsstring) : Z :=
  match s with
  | [] => 0
  | c :: r => (Z.of_N c - 48) * 10 ^ Z.of_nat (List.length r) + valueOf r
  end.

(** The Number value of a non-negative integer. *)
Definition toNumber (z : Z) : number := if (z =? 0)%Z then Num 0 else F z.

(** Whether [parseInt] without a radix reads the input as hexadecimal. *)
Definition hexPrefix (s : jsstring) : bool :=
  match s with
  | a :: b :: _ => (a =? ch "0")%N && ((b =? ch "x")%N || (b =? ch "X")%N)
  | _ => false
  end.

(** Whether a text starts with an explicit [http://] or [https://]. *)
Definition hasScheme (s : jsstring) : bool :=
  match startsWith (js "http://") s, startsWith (js "https://") s with
  | None, None => false
  | _, _ => true
  end.

(** The store calls a request makes, for a client that records them. *)
Inductive StoreCall : Type :=
| CallLinkFindMany (args : LinkFindManyArgs)
| CallLinkFindUnique (id : number)
| CallLinkCreate (data : LinkCreateInput)
| CallCommentFindMany (args : CommentFindManyArgs)
| CallCommentFindUnique (id : number)
| CallCommentCreate (data : CommentCreateInput).

Definition recording {S A} (call : StoreCall) (m : Promise S A)
  : Promise (S * list StoreCall) A :=
  fun st => let (r, s') := m (fst st) in (r, (s', snd st ++ [call])).

(** A client that appends every call it receives to a log. *)
Definition traced {S} (prisma : PrismaClient S) : PrismaClient (S * list StoreCall) := {|
  link_findMany args := recording (CallLinkFindMany args) (link_findMany args);
  link_findUnique id := recording (CallLinkFindUnique id) (link_findUnique id);
  link_create data := recording (CallLinkCreate data) (link_create data);
  comment_findMany args := recording (CallCommentFindMany args) (comment_findMany args);
  comment_findUnique id := recording (CallCommentFindUnique id) (comment_findUnique id);
  comment_create data := recording (CallCommentCreate data) (comment_create data)
|}.

(** The message of the two rejections that name the link id. *)
Definition nonExistingLink (linkId suffix : jsstring) : jsstring :=
  js "Cannot post comment on non-existing link with id '" ++ linkId ++ suffix.

(** [needle] occurs in [text] as a substring, code unit by code unit under
    the store's text comparison. *)
Definition Substring (collate : codeunit -> codeunit -> bool) (needle text : jsstring) : Prop :=
  exists pre mid post,
    text = pre ++ mid ++ post /\ Forall2 (fun a b => collate a b = true) needle mid.

(** A link whose description or url the store finds [needle] in. *)
Definition mentions (collate : codeunit -> codeunit -> bool) (needle : jsstring) (l : Link)
  : bool :=
  Store.containsb collate needle (link_description l)
  || Store.containsb collate needle (link_url l).

(** Newest first. *)
Definition newerFirst (a b : Comment) : Prop :=
  (comment_createdAt b <= comment_createdAt a)%Z.

(** A store with two links and two comments on the first. *)
Definition exampleDb : Store.Db :=
  {| Store.links :=
       [ {| link_id := 1; link_createdAt := 10;
            link_description := js "The easiest way of setting up a GraphQL server";
            link_url := js "https://graphql-yoga.com" |};
         {| link_id := 2; link_createdAt := 20;
            link_description := js "An example";
            link_url := js "https://example.com" |} ];
     Store.comments :=
       [ {| comment_id := 1; comment_createdAt := 30;
            comment_body := js "first"; comment_linkId := 1 |};
         {| comment_id := 2; comment_createdAt := 40;
            comment_body := js "second"; comment_linkId := 1 |} ];
     Store.linkSeq := 2; Store.commentSeq := 2; Store.now := 50 |}.

(** The store after [n] links were posted to it. *)
Fixpoint postLinks (n : nat) (db : Store.Db) : Store.Db :=
  match n with
  | O => db
  | S n' =>
      snd (postLink (prisma := Store.client N.eqb)
             (js "example.com") (js "a link") (postLinks n' db))
  end.

(** A store that fifteen links were posted to. *)
Definition lenient_lookup_db : Store.Db := postLinks 15 Store.empty.

(* ===================================================================== *)
(** * Earlier revisions of the schema *)
(* ===================================================================== *)

(** The first revision keeps the links in a module-level array and numbers
    them by the array's length. *)
Module ArraySchema.

Record Link : Type := mkLink {
  id : jsstring;
  url : jsstring;
  description : jsstring
}.

(** The array the module starts with. *)
Definition links : list Link :=
  [ {| id := js "link-0";
       url := js "https://graphql-yoga.com";
       description := js "The easiest way of setting up a GraphQL server" |} ].

(** [Query.feed] *)
Definition feed (links : list Link) : list Link := links.

(** [Mutation.postLink]: the new link and the array after the [push]. *)
Definition postLink (url description : jsstring) (links : list Link)
  : Link * list Link :=
  let idCount := Z.of_nat (List.length links) in
  let link := {| id := js "link-" ++ Number_toString idCount;
                 description := description;
                 url := url |} in
  (link, links ++ [link]).

End ArraySchema.

(** The revisions over Prisma that create rows without validating. *)
Module PlainSchema.

Section Resolvers.

Context {S : Type} {prisma : PrismaClient S}.

(** [Mutation.postLink] *)
Definition postLink (url description : jsstring) : Promise S Link :=
  newLink <- link_create {| data_url := url; data_description := description |} ;;
  resolve newLink.

(** [Mutation.postCommentOnLink] *)
Definition postCommentOnLink (linkId body : jsstring) : Promise S Comment :=
  newComment <- comment_create {| data_body := body;
                                  data_linkId := parseInt linkId None |} ;;
  resolve newComment.

End Resolvers.

End PlainSchema.

(* ===================================================================== *)
(** * Further specification-side notions *)
(* ===================================================================== *)

(** A printable ASCII code unit other than the space. *)
Definition isUrlChar (c : codeunit) : bool := ((33 <=? c) && (c <=? 126))%N.

Definition inRange (lo hi c : codeunit) : bool := ((lo <=? c) && (c <=? hi))%N.

Definition itemWithin (lo hi : codeunit) (i : class_item) : bool :=
  match i with
  | One x => ((lo <=? x) && (x <=? hi))%N
  | Range a b => ((lo <=? a) && (b <=? hi))%N
  end.

(** Every code unit a pattern can consume lies between [lo] and [hi]. *)
Fixpoint within (lo hi : codeunit) (r : regex) : bool :=
  match r with
  | Bol | Eol | WordB => true
  | Lit l => forallb (inRange lo hi) l
  | Rep cls _ _ => forallb (itemWithin lo hi) cls
  | Opt r' => within lo hi r'
  | Cat r1 r2 => within lo hi r1 && within lo hi r2
  end.

(** The pattern ends in [$]. *)
Fixpoint endsAtEol (r : regex) : bool :=
  match r with
  | Eol => true
  | Cat _ r2 => endsAtEol r2
  | _ => false
  end.

(** A store call that writes. *)
Definition isCreate (call : StoreCall) : bool :=
  match call with
  | CallLinkCreate _ | CallCommentCreate _ => true
  | _ => false
  end.

(** The calls a promise adds to the log of a recording client. *)
Definition callsOf {S A} (m : Promise (S * list StoreCall) A) (s : S) : list StoreCall :=
  snd (snd (m (s, []))).

(** The data model's integrity: the store is well formed, ids are unique,
    and every comment belongs to a stored link. *)
Definition integrity (db : Store.Db) : Prop :=
  Store.wf db
  /\ NoDup (map link_id (Store.links db))
  /\ NoDup (map comment_id (Store.comments db))
  /\ Forall (fun c => In (comment_linkId c) (map link_id (Store.links db)))
            (Store.comments db).

(** Every link of the array is numbered by its position. *)
Definition wellNumbered (links : list ArraySchema.Link) : Prop :=
  forall i l, nth_error links i = Some l ->
              ArraySchema.id l = js "link-" ++ Number_toString (Z.of_nat i).

(* ===================================================================== *)
(** * The runtime: white space *)
(* ===================================================================== *)

Lemma trimStart_length (s : jsstring) : (length (trimStart s) <= length s)%nat.
Proof.
  induction s as [|c s IH]; simpl; [lia|].
  destruct (isWhiteSpace c); simpl; lia.
Qed.

Lemma trimStart_split (s : jsstring) :
  exists l, s = l ++ trimStart s /\ forallb isWhiteSpace l = true.
Proof.
  induction s as [|c s [l [E Hl]]]; simpl.
  - exists []. auto.
  - destruct (isWhiteSpace c) eqn:Hc.
    + exists (c :: l). simpl. rewrite Hc, Hl. split; [congruence | reflexivity].
    + exists []. auto.
Qed.

Lemma trimStart_head (s : jsstring) :
  match trimStart s with
  | c :: _ => isWhiteSpace c = false
  | [] => True
  end.
Proof.
  induction s as [|c s IH]; simpl; [exact I|].
  destruct (isWhiteSpace c) eqn:Hc; [exact IH | exact Hc].
Qed.

Lemma trimStart_fixed (s : jsstring) :
  match s with c :: _ => isWhiteSpace c = false | [] => True end ->
  trimStart s = s.
Proof.
  destruct s as [|c s]; simpl; [reflexivity|].
  intros ->. reflexivity.
Qed.

Lemma trimStart_fixed_head (s : jsstring) :
  trimStart s = s ->
  match s with c :: _ => isWhiteSpace c = false | [] => True end.
Proof. intros E. pose proof (trimStart_head s) as H. rewrite E in H. exact H. Qed.

Lemma trimStart_idem (s : jsstring) : trimStart (trimStart s) = trimStart s.
Proof. apply trimStart_fixed, trimStart_head. Qed.

Lemma trimStart_app_fixed (u k : jsstring) :
  trimStart u = u -> trimStart k = k -> trimStart (u ++ k) = u ++ k.
Proof.
  intros Hu Hk. destruct u as [|c u]; [exact Hk|].
  apply trimStart_fixed. exact (trimStart_fixed_head Hu).
Qed.

Lemma trimEnd_idem (s : jsstring) : trimEnd (trimEnd s) = trimEnd s.
Proof. unfold trimEnd. rewrite rev_involutive, trimStart_idem. reflexivity. Qed.

Lemma trimEnd_split (s : jsstring) :
  exists r, s = trimEnd s ++ r /\ forallb isWhiteSpace r = true.
Proof.
  destruct (trimStart_split (rev s)) as [l [E Hl]].
  exists (rev l). split.
  - unfold trimEnd. rewrite <- rev_app_distr, <- E, rev_involutive. reflexivity.
  - rewrite forallb_forall in *. intros c Hc. apply Hl, in_rev, Hc.
Qed.

Lemma trimEnd_fixed_rev (t : jsstring) :
  trimEnd t = t -> trimStart (rev t) = rev t.
Proof.
  unfold trimEnd. intros E. rewrite <- E at 2. rewrite rev_involutive. reflexivity.
Qed.

(** [trimEnd] does not uncover white space at the start. *)
Lemma trimStart_trimEnd (a : jsstring) :
  trimStart a = a -> trimStart (trimEnd a) = trimEnd a.
Proof.
  intros Ha. destruct (trimEnd_split a) as [w [E _]].
  apply trimStart_fixed. destruct (trimEnd a) as [|c t]; [exact I|].
  rewrite E in Ha. exact (trimStart_fixed_head Ha).
Qed.

Lemma trim_idem (s : jsstring) : trim (trim s) = trim s.
Proof.
  unfold trim.
  rewrite (trimStart_trimEnd (trimStart_idem s)).
  apply trimEnd_idem.
Qed.

(** [trim] removes white space at both ends and nothing else. *)
Lemma trim_split (s : jsstring) :
  exists l r, s = l ++ trim s ++ r
              /\ forallb isWhiteSpace l = true /\ forallb isWhiteSpace r = true.
Proof.
  destruct (trimStart_split s) as [l [El Hl]].
  destruct (trimEnd_split (trimStart s)) as [r [Er Hr]].
  exists l, r. unfold trim. rewrite <- Er. auto.
Qed.

Lemma trim_ends (s : jsstring) :
  trimStart (trim s) = trim s /\ trimEnd (trim s) = trim s.
Proof.
  split.
  - apply trimStart_trimEnd, trimStart_idem.
  - apply trimEnd_idem.
Qed.

(** A string that starts with a code unit other than white space, in front
    of a trimmed string, is trimmed. *)
Lemma trim_prefixed (k t : jsstring) :
  trimStart k = k -> k <> [] -> trimStart (rev k) = rev k ->
  trim t = t -> trim (k ++ t) = k ++ t.
Proof.
  intros Hk Hne Hrk Ht.
  assert (Hs : trimStart (k ++ t) = k ++ t).
  { destruct k as [|c k]; [congruence|].
    apply trimStart_fixed. exact (trimStart_fixed_head Hk). }
  unfold trim. rewrite Hs. unfold trimEnd.
  rewrite rev_app_distr, trimStart_app_fixed.
  - rewrite <- rev_app_distr, rev_involutive. reflexivity.
  - apply trimEnd_fixed_rev. rewrite <- Ht. apply trimEnd_idem.
  - exact Hrk.
Qed.

(* ===================================================================== *)
(** * The runtime: regular expressions *)
(* ===================================================================== *)

Lemma matchesAt_flat_map (f : mstate -> list mstate) (l : list mstate) :
  match flat_map f l with [] => false | _ :: _ => true end
  = existsb (fun st => match f st with [] => false | _ :: _ => true end) l.
Proof.
  induction l as [|x l IH]; simpl; [reflexivity|].
  destruct (f x); simpl; [exact IH | reflexivity].
Qed.

Lemma matchesAt_Cat (r1 r2 : regex) (st : mstate) :
  matchesAt (Cat r1 r2) st = existsb (matchesAt r2) (run r1 st).
Proof. unfold matchesAt. simpl. apply matchesAt_flat_map. Qed.

(** A pattern that starts with [^] matches at the start of the input only. *)
Lemma search_Bol (r : regex) (c : codeunit) (s : jsstring) :
  search (Cat Bol r) (Some c) s = false.
Proof.
  revert c. induction s as [|d s IH]; intros c; simpl.
  - reflexivity.
  - apply IH.
Qed.

Lemma test_Bol (r : regex) (s : jsstring) :
  test (Cat Bol r) s = matchesAt r (None, s).
Proof.
  assert (H : matchesAt (Cat Bol r) (None, s) = matchesAt r (None, s)).
  { unfold matchesAt. simpl. rewrite app_nil_r. reflexivity. }
  unfold test. destruct s as [|c s]; cbn [search]; rewrite H.
  - apply orb_false_r.
  - rewrite search_Bol. apply orb_false_r.
Qed.

(** An unbounded class repetition followed by [$] matches exactly the
    inputs made of at least [min] code units of the class. *)
Lemma runRep_Eol (cls : charclass) (s : jsstring) :
  forall (min : nat) (prev : option codeunit),
    existsb (matchesAt Eol) (runRep cls min None prev s)
    = forallb (in_class cls) s && (min <=? length s)%nat.
Proof.
  induction s as [|c s IH]; intros min prev; simpl.
  - destruct min; reflexivity.
  - destruct (in_class cls c); simpl.
    + rewrite existsb_app, IH.
      destruct min; simpl; rewrite orb_false_r; reflexivity.
    + destruct min; reflexivity.
Qed.

(** With a lower bound of at least one the code unit before the match
    plays no part. *)
Lemma runRep_prev (cls : charclass) (m : nat) (max : option nat)
      (p q : option codeunit) (s : jsstring) :
  runRep cls (S m) max p s = runRep cls (S m) max q s.
Proof. destruct s; reflexivity. Qed.

Lemma forallb_pointwise (f g : codeunit -> bool) (l : jsstring) :
  (forall c, f c = g c) -> forallb f l = forallb g l.
Proof. intros E. induction l as [|c l IH]; simpl; [|rewrite E, IH]; reflexivity. Qed.

Lemma in_class_digit (c : codeunit) : in_class digit c = isAsciiDigit c.
Proof. unfold in_class, digit, isAsciiDigit. simpl. apply orb_false_r. Qed.

Lemma test_re_digits (s : jsstring) : test re_digits s = allDigits s.
Proof.
  unfold re_digits. rewrite test_Bol, matchesAt_Cat. simpl run.
  rewrite runRep_Eol. unfold allDigits.
  rewrite (forallb_pointwise _ _ s in_class_digit).
  destruct s; simpl; [reflexivity | apply andb_true_r].
Qed.

(* ===================================================================== *)
(** * The runtime: numbers and [parseInt] *)
(* ===================================================================== *)

Lemma digit_not_space (c : codeunit) : isAsciiDigit c = true -> isWhiteSpace c = false.
Proof.
  unfold isAsciiDigit, isWhiteSpace. intros H.
  apply andb_true_iff in H. destruct H as [H1 H2].
  apply N.leb_le in H1, H2.
  repeat match goal with
         | |- context [(?a <=? ?b)%N] => destruct (N.leb_spec a b)
         | |- context [(?a =? ?b)%N] => destruct (N.eqb_spec a b)
         end; simpl; try reflexivity; lia.
Qed.

Lemma digit_radix10 (c : codeunit) : isRadixDigit 10 c = isAsciiDigit c.
Proof.
  unfold isRadixDigit, digitValue, isAsciiDigit.
  repeat match goal with
         | |- context [(?a <=? ?b)%N] => destruct (N.leb_spec a b)
         end; simpl; try reflexivity;
    match goal with
    | |- (?a <? ?b)%Z = _ => destruct (Z.ltb_spec a b); try reflexivity; lia
    end.
Qed.

Lemma digit_value (c : codeunit) :
  isAsciiDigit c = true -> digitValue c = Some (Z.of_N c - 48)%Z.
Proof. unfold digitValue, isAsciiDigit. intros ->. reflexivity. Qed.

Lemma digit_not_sign (c : codeunit) :
  isAsciiDigit c = true -> ((c =? ch "+") || (c =? ch "-"))%N = false.
Proof.
  unfold isAsciiDigit. intros H.
  apply andb_true_iff in H. destruct H as [H1 H2].
  apply N.leb_le in H1, H2.
  change (ch "+") with 43%N. change (ch "-") with 45%N.
  destruct (N.eqb_spec c 43); [lia|]. destruct (N.eqb_spec c 45); [lia|].
  reflexivity.
Qed.

Lemma takeWhile_app (p : codeunit -> bool) (s rest : jsstring) :
  forallb p s = true ->
  match rest with c :: _ => p c = false | [] => True end ->
  takeWhile p (s ++ rest) = s.
Proof.
  intros Hs Hr. induction s as [|c s IH]; simpl in *.
  - destruct rest as [|d rest]; simpl; [reflexivity|]. rewrite Hr. reflexivity.
  - apply andb_true_iff in Hs. destruct Hs as [Hc Hs].
    rewrite Hc, (IH Hs). reflexivity.
Qed.

(** Horner's scheme computes the value of a decimal numeral. *)
Lemma mathInt_acc (s : jsstring) :
  forallb isAsciiDigit s = true ->
  forall acc : Z,
    fold_left (fun acc c => acc * 10 + match digitValue c with Some d => d | None => 0 end)%Z
              s acc
    = (acc * 10 ^ Z.of_nat (length s) + valueOf s)%Z.
Proof.
  induction s as [|c s IH]; intros Hs acc.
  - simpl. lia.
  - simpl in Hs. apply andb_true_iff in Hs. destruct Hs as [Hc Hs].
    cbn [fold_left valueOf length]. rewrite (IH Hs), (digit_value _ Hc).
    rewrite Nat2Z.inj_succ, Z.pow_succ_r by lia. ring.
Qed.

Lemma mathInt_valueOf (s : jsstring) :
  forallb isAsciiDigit s = true -> mathInt 10 s = valueOf s.
Proof. intros Hs. unfold mathInt. rewrite (mathInt_acc _ Hs). lia. Qed.

Lemma valueOf_nonneg (s : jsstring) :
  forallb isAsciiDigit s = true -> (0 <= valueOf s)%Z.
Proof.
  induction s as [|c s IH]; simpl; intros Hs; [lia|].
  apply andb_true_iff in Hs. destruct Hs as [Hc Hs]. specialize (IH Hs).
  unfold isAsciiDigit in Hc. apply andb_true_iff in Hc. destruct Hc as [H1 H2].
  apply N.leb_le in H1, H2.
  assert (0 <= 10 ^ Z.of_nat (length s))%Z by (apply Z.pow_nonneg; lia).
  nia.
Qed.

(** Integers up to [2^53] are Number values. *)
Lemma F_exact (z : Z) : (0 < z <= 2 ^ 53)%Z -> F z = Num z.
Proof.
  intros Hz. unfold F, round53.
  assert (Hn : (Z.abs_N z <= 2 ^ 53)%N).
  { apply N2Z.inj_le. rewrite N2Z.inj_abs_N, N2Z.inj_pow. simpl Z.of_N. lia. }
  apply N.leb_le in Hn as Hn'. rewrite Hn'.
  assert (Hlt : (2 ^ 1024 <=? Z.abs_N z)%N = false).
  { apply N.leb_gt. eapply N.le_lt_trans; [exact Hn|].
    apply N.pow_lt_mono_r; lia. }
  rewrite Hlt. f_equal. rewrite N2Z.inj_abs_N. lia.
Qed.

Lemma toNumber_exact (z : Z) : (0 <= z <= 2 ^ 53)%Z -> toNumber z = Num z.
Proof.
  intros Hz. unfold toNumber. destruct (Z.eqb_spec z 0) as [->|Hne]; [reflexivity|].
  apply F_exact. lia.
Qed.

Lemma parseInt_digits_prefix (radix : option Z) (ds rest : jsstring) :
  allDigits ds = true ->
  match rest with c :: _ => isAsciiDigit c = false | [] => True end ->
  radix = Some 10%Z \/ (radix = None /\ hexPrefix (ds ++ rest) = false) ->
  parseInt (ds ++ rest) radix = toNumber (valueOf ds).
Proof.
  intros Hd Hr Hrad.
  destruct ds as [|c ds]; [discriminate|].
  assert (Hall : forallb isAsciiDigit (c :: ds) = true) by exact Hd.
  assert (Htake : takeWhile (isRadixDigit 10) ((c :: ds) ++ rest) = c :: ds).
  { apply takeWhile_app.
    - rewrite (forallb_pointwise _ _ (c :: ds) digit_radix10). exact Hall.
    - destruct rest; [exact I|]. rewrite digit_radix10. exact Hr. }
  simpl in Hd. apply andb_true_iff in Hd. destruct Hd as [Hc _].
  pose proof (digit_not_sign _ Hc) as Hsign.
  apply orb_false_iff in Hsign. destruct Hsign as [Hplus Hminus].
  assert (Hfin : match c :: ds with
                 | [] => NaN
                 | _ :: _ =>
                     let m := mathInt 10 (c :: ds) in
                     if (m =? 0)%Z then Num 0 else F m
                 end = toNumber (valueOf (c :: ds))).
  { cbv zeta. rewrite (mathInt_valueOf _ Hall). reflexivity. }
  cbn [app] in Htake, Hrad.
  unfold parseInt. cbn [app trimStart]. rewrite (digit_not_space _ Hc).
  cbv zeta. rewrite Hplus, Hminus. cbn [orb].
  destruct Hrad as [-> | [-> Hhex]].
  - change (ToInt32 10) with 10%Z.
    cbn [Z.eqb Z.ltb negb andb orb Z.compare Pos.compare Pos.compare_cont Pos.eqb].
    destruct (ds ++ rest); rewrite Htake; exact Hfin.
  - cbn [Z.eqb Z.ltb negb andb orb Z.compare Pos.compare Pos.compare_cont Pos.eqb].
    destruct (ds ++ rest) as [|b tl]; [rewrite Htake; exact Hfin|].
    unfold hexPrefix in Hhex. rewrite Hhex. rewrite Htake. exact Hfin.
Qed.

Lemma toNumber_cases (ds : jsstring) :
  allDigits ds = true ->
  toNumber (valueOf ds)
  = if (valueOf ds <=? 2 ^ 53)%Z then Num (valueOf ds) else F (valueOf ds).
Proof.
  intros Hd.
  assert (Hs : forallb isAsciiDigit ds = true) by (destruct ds; [discriminate | exact Hd]).
  pose proof (valueOf_nonneg _ Hs) as Hnn.
  destruct (Z.leb_spec (valueOf ds) (2 ^ 53)) as [Hle|Hgt].
  - apply toNumber_exact. lia.
  - unfold toNumber. destruct (Z.eqb_spec (valueOf ds) 0) as [E|_]; [|reflexivity].
    rewrite E in Hgt. discriminate.
Qed.

(** C7 (amended): on a string of one or more ASCII digits [parseIntSafe]
    returns the Number value of the integer it denotes, which is that
    integer itself up to [2^53] and the nearest double above; on every
    other string it returns [null]. *)
Theorem parseIntSafe_spec (s : jsstring) :
  if allDigits s
  then parseIntSafe s
       = Some (if (valueOf s <=? 2 ^ 53)%Z then Num (valueOf s) else F (valueOf s))
  else parseIntSafe s = None.
Proof.
  unfold parseIntSafe. rewrite test_re_digits.
  destruct (allDigits s) eqn:Hd; [|reflexivity].
  f_equal. rewrite <- (app_nil_r s) at 1.
  rewrite (parseInt_digits_prefix (radix := Some 10%Z) s [] Hd I (or_introl eq_refl)).
  apply toNumber_cases, Hd.
Qed.

(** C7 (as stated) fails: the sixteen digits of [2^53 + 1] come back as
    [2^53]. *)
Lemma parseIntSafe_inexact :
  allDigits (js "9007199254740993") = true
  /\ valueOf (js "9007199254740993") = 9007199254740993%Z
  /\ parseIntSafe (js "9007199254740993") = Some (Num 9007199254740992)
  /\ parseIntSafe (js "9007199254740993") <> Some (Num (valueOf (js "9007199254740993"))).
Proof.
  repeat split; try (vm_compute; reflexivity).
  intros H. vm_compute in H. discriminate H.
Qed.

(* ===================================================================== *)
(** * The URL patterns *)
(* ===================================================================== *)

Lemma startsWith_app (a b s : jsstring) :
  startsWith (a ++ b) s
  = match startsWith a s with
    | Some r => startsWith b r
    | None => None
    end.
Proof.
  revert s. induction a as [|x a IH]; intros s; simpl.
  - reflexivity.
  - destruct s as [|y s]; [reflexivity|].
    destruct (x =? y)%N; [apply IH | reflexivity].
Qed.

Lemma startsWith_prefix (l s : jsstring) : startsWith l (l ++ s) = Some s.
Proof.
  induction l as [|x l IH]; simpl; [reflexivity|].
  rewrite N.eqb_refl. exact IH.
Qed.

Lemma matchesAt_Lit (l : jsstring) (st : mstate) :
  matchesAt (Lit l) st
  = match startsWith l (snd st) with Some _ => true | None => false end.
Proof. unfold matchesAt. simpl. destruct (startsWith l (snd st)); reflexivity. Qed.

Lemma matchesAt_Lit_Cat (l : jsstring) (r : regex) (st : mstate) :
  matchesAt (Cat (Lit l) r) st
  = match startsWith l (snd st) with
    | Some rest => matchesAt r (lastOr (fst st) l, rest)
    | None => false
    end.
Proof.
  rewrite matchesAt_Cat. simpl.
  destruct (startsWith l (snd st)); simpl; [apply orb_false_r | reflexivity].
Qed.

Lemma matchesAt_Opt_Cat (r1 r2 : regex) (st : mstate) :
  matchesAt (Cat (Opt r1) r2) st
  = matchesAt (Cat r1 r2) st || matchesAt r2 st.
Proof.
  rewrite !matchesAt_Cat. simpl. rewrite existsb_app. simpl.
  rewrite orb_false_r. reflexivity.
Qed.

(** The scheme test of the source is a prefix test. *)
Lemma test_re_scheme (t : jsstring) : test re_scheme t = hasScheme t.
Proof.
  unfold re_scheme, hasScheme. rewrite test_Bol.
  change (js "http://") with (js "http" ++ js "://").
  change (js "https://") with (js "http" ++ js "s" ++ js "://").
  rewrite !startsWith_app, matchesAt_Lit_Cat. cbn [fst snd].
  destruct (startsWith (js "http") t) as [r1|]; [|reflexivity].
  rewrite startsWith_app.
  rewrite matchesAt_Opt_Cat, matchesAt_Lit_Cat, matchesAt_Lit. cbn [fst snd].
  destruct (startsWith (js "s") r1) as [r2|].
  - rewrite matchesAt_Lit. cbn [snd].
    destruct (startsWith (js "://") r1), (startsWith (js "://") r2); reflexivity.
  - destruct (startsWith (js "://") r1); reflexivity.
Qed.

Lemma run_Lit_prev (l : jsstring) (p q : option codeunit) (t : jsstring) :
  l <> [] -> run (Lit l) (p, t) = run (Lit l) (q, t).
Proof.
  intros Hl. simpl. unfold lastOr.
  destruct (rev l) eqn:E; [|reflexivity].
  apply (f_equal (@rev _)) in E. rewrite rev_involutive in E. contradiction.
Qed.

Lemma run_Rep_prev (cls : charclass) (m : nat) (max : option nat) (r : regex)
      (p q : option codeunit) (t : jsstring) :
  run (Cat (Rep cls (S m) max) r) (p, t) = run (Cat (Rep cls (S m) max) r) (q, t).
Proof. simpl. rewrite (runRep_prev cls m max p q t). reflexivity. Qed.

(** Where the host pattern matches does not depend on what comes before. *)
Lemma run_re_host_prev (p q : option codeunit) (t : jsstring) :
  run re_host (p, t) = run re_host (q, t).
Proof.
  unfold re_host.
  change (run (Cat (Opt ?a) ?b) ?st) with (flat_map (run b) (run a st ++ [st])).
  rewrite !flat_map_app.
  assert (E : run (Lit (js "www.")) (p, t) = run (Lit (js "www.")) (q, t))
    by (apply run_Lit_prev; discriminate).
  rewrite E. apply f_equal. cbn [flat_map].
  rewrite (run_Rep_prev _ _ _ _ p q t). reflexivity.
Qed.

(** A text the domain pattern accepts is accepted by the URL pattern once
    [https://] stands in front of it. *)
Lemma re_domain_re_url (t : jsstring) :
  test re_domain t = true -> test re_url (js "https://" ++ t) = true.
Proof.
  unfold re_domain, re_url. rewrite !test_Bol. intros H.
  change (js "https://" ++ t) with (js "http" ++ js "s" ++ js "://" ++ t).
  rewrite matchesAt_Lit_Cat. cbn [fst snd]. rewrite startsWith_prefix.
  rewrite matchesAt_Opt_Cat, matchesAt_Lit_Cat. cbn [fst snd].
  rewrite startsWith_prefix.
  rewrite matchesAt_Lit_Cat. cbn [fst snd]. rewrite startsWith_prefix.
  unfold matchesAt in *. rewrite (run_re_host_prev _ None t).
  destruct (run re_host (None, t)); [discriminate H | reflexivity].
Qed.

Lemma hasScheme_https (t : jsstring) : hasScheme (js "https://" ++ t) = true.
Proof.
  unfold hasScheme. rewrite startsWith_prefix.
  destruct (startsWith (js "http://") (js "https://" ++ t)); reflexivity.
Qed.

Lemma inr_inj (A B : Type) (a b : B) : @inr A B a = inr b -> a = b.
Proof. congruence. Qed.

(** C5: [validateAndNormalizeUrl] first trims its argument: the text it
    goes on with is the argument without the white space at its two ends
    (what is cut off is white space, what is left neither starts nor ends
    with white space).  A trimmed text with an [http://] or [https://]
    scheme is returned as it is when the URL pattern matches and rejected
    with "Invalid URL format." otherwise; a trimmed text without one is
    returned behind [https://] when the same pattern without the scheme
    matches and rejected with "Invalid domain format." otherwise. *)
Theorem validateAndNormalizeUrl_spec (text : jsstring) :
  let t := trim text in
  (exists l r, text = l ++ t ++ r
               /\ forallb isWhiteSpace l = true /\ forallb isWhiteSpace r = true)
  /\ match t with c :: _ => isWhiteSpace c = false | [] => True end
  /\ match rev t with c :: _ => isWhiteSpace c = false | [] => True end
  /\ trimStart t = t /\ trimEnd t = t
  /\ validateAndNormalizeUrl text
     = (if hasScheme t
        then if test re_url t then inr t
             else inl (GraphQLError (js "Invalid URL format."))
        else if test re_domain t then inr (js "https://" ++ t)
             else inl (GraphQLError (js "Invalid domain format.")))
  /\ validateAndNormalizeUrl (js "example.com") = inr (js "https://example.com")
  /\ validateAndNormalizeUrl (js "https://example.com/a?b=1")
     = inr (js "https://example.com/a?b=1")
  /\ validateAndNormalizeUrl (js "not a url")
     = inl (GraphQLError (js "Invalid domain format."))
  /\ validateAndNormalizeUrl (js "  example.com ") = inr (js "https://example.com")
  /\ validateAndNormalizeUrl ([9; 160]%N ++ js "https://example.com/a?b=1" ++ [10; 8232]%N)
     = inr (js "https://example.com/a?b=1")
  /\ validateAndNormalizeUrl (js " http://example .com ")
     = inl (GraphQLError (js "Invalid URL format."))
  /\ trim (js "  a b ") = js "a b".
Proof.
  intros t. split; [apply trim_split|].
  split; [exact (trimStart_fixed_head (proj1 (trim_ends text)))|].
  split; [exact (trimStart_fixed_head (trimEnd_fixed_rev (proj2 (trim_ends text))))|].
  split; [apply trim_ends|]. split; [apply trim_ends|].
  split.
  - unfold validateAndNormalizeUrl. fold t. rewrite test_re_scheme.
    destruct (hasScheme t); [destruct (test re_url t) | destruct (test re_domain t)];
      reflexivity.
  - repeat split; vm_compute; reflexivity.
Qed.

(** C10: a URL that [validateAndNormalizeUrl] returned is accepted by
    [validateAndNormalizeUrl] and returned unchanged. *)
Theorem validateAndNormalizeUrl_idempotent (text normalized : jsstring) :
  validateAndNormalizeUrl text = inr normalized ->
  validateAndNormalizeUrl normalized = inr normalized.
Proof.
  unfold validateAndNormalizeUrl. rewrite !test_re_scheme.
  destruct (hasScheme (trim text)) eqn:Hs.
  - destruct (test re_url (trim text)) eqn:Hu; cbn [negb]; [|discriminate].
    intros H. apply inr_inj in H. subst normalized.
    rewrite trim_idem, Hs, Hu. reflexivity.
  - destruct (test re_domain (trim text)) eqn:Hd; cbn [negb]; [|discriminate].
    intros H. apply inr_inj in H. subst normalized.
    rewrite (trim_prefixed (k := js "https://") (t := trim text)
               eq_refl ltac:(discriminate) eq_refl (trim_idem text)).
    rewrite hasScheme_https, (re_domain_re_url _ Hd). reflexivity.
Qed.

Lemma validateAndNormalizeUrl_idempotent_witness :
  validateAndNormalizeUrl (js " example.com ") = inr (js "https://example.com")
  /\ validateAndNormalizeUrl (js "https://example.com") = inr (js "https://example.com").
Proof.
  split.
  - vm_compute. reflexivity.
  - apply (@validateAndNormalizeUrl_idempotent (js " example.com ")).
    vm_compute. reflexivity.
Defined.

(* ===================================================================== *)
(** * The resolvers over any store *)
(* ===================================================================== *)

Lemma jsstring_eqb_eq (a b : jsstring) : jsstring_eqb a b = true <-> a = b.
Proof.
  revert b. induction a as [|x a IH]; intros [|y b]; simpl; split;
    try reflexivity; try discriminate.
  - intros H. apply andb_true_iff in H. destruct H as [Hx Hab].
    apply N.eqb_eq in Hx. apply IH in Hab. congruence.
  - intros H. injection H as -> ->. rewrite N.eqb_refl. apply IH. reflexivity.
Qed.

Section AnyStore.

Context {S : Type} (prisma : PrismaClient S).

(** C1: [postCommentOnLink] rejects a link id that [parseIntSafe] does not
    accept with the non-existing-link message (no full stop), then an empty
    body with "Cannot post empty comment."; otherwise it asks the store to
    create the comment, turns a foreign-key violation (a known request
    error with code P2003) into the non-existing-link message with a full
    stop, and passes every other rejection of the store on as it is. *)
Theorem postCommentOnLink_spec (linkId body : jsstring) (s : S) :
  postCommentOnLink linkId body s
  = match parseIntSafe linkId with
    | None => (inl (GraphQLError (nonExistingLink linkId (js "'"))), s)
    | Some _ =>
        match body with
        | [] => (inl (GraphQLError (js "Cannot post empty comment.")), s)
        | _ :: _ =>
            match comment_create {| data_body := body;
                                    data_linkId := parseInt linkId None |} s with
            | (inr newComment, s') => (inr newComment, s')
            | (inl (PrismaClientKnownRequestError code message), s') =>
                if jsstring_eqb code (js "P2003")
                then (inl (GraphQLError (nonExistingLink linkId (js "'."))), s')
                else (inl (PrismaClientKnownRequestError code message), s')
            | (inl err, s') => (inl err, s')
            end
        end
    end
  /\ (forall code, jsstring_eqb code (js "P2003") = true <-> code = js "P2003").
Proof.
  split; [|intros code; apply jsstring_eqb_eq].
  unfold postCommentOnLink, nonExistingLink.
  destruct (parseIntSafe linkId); [|reflexivity].
  destruct body as [|c body]; [reflexivity|].
  unfold bind, catch, reject, resolve.
  destruct (comment_create _ s) as [[err|newComment] s']; [|reflexivity].
  destruct err as [m|code m|m]; cbn [isForeignKeyViolation]; try reflexivity.
  destruct (jsstring_eqb code (js "P2003")); reflexivity.
Qed.

(** C2: when validation fails, [feed], [postLink] and [postCommentOnLink]
    reject with a [GraphQLError] and leave the store as it was, whatever
    the store is: no store call is made. *)
Theorem validation_failure_no_store_call (s : S) :
  (forall filterNeedle skip take,
      (nullish take 30 < 1 \/ 50 < nullish take 30 \/ nullish skip 0 < 0)%Z ->
      exists msg, feed filterNeedle skip take s = (inl (GraphQLError msg), s))
  /\ (forall url description,
         (exists e, validateAndNormalizeUrl url = inl e) \/ description = [] ->
         exists msg, postLink url description s = (inl (GraphQLError msg), s))
  /\ (forall linkId body,
         parseIntSafe linkId = None \/ body = [] ->
         exists msg, postCommentOnLink linkId body s = (inl (GraphQLError msg), s)).
Proof.
  split; [|split].
  - intros filterNeedle skip take H.
    unfold feed, bind, sync, applyTakeConstraints, applySkipConstraints.
    destruct (Z.ltb_spec (nullish take 30%Z) 1); cbn [orb]; [eexists; reflexivity|].
    destruct (Z.ltb_spec 50 (nullish take 30%Z)); [eexists; reflexivity|].
    destruct (Z.ltb_spec (nullish skip 0%Z) 0); [eexists; reflexivity|].
    lia.
  - intros url description H. unfold postLink, bind, sync, reject.
    unfold validateAndNormalizeUrl in *.
    destruct (test re_scheme (trim url));
      [destruct (test re_url (trim url)) | destruct (test re_domain (trim url))];
      cbn [negb] in *; try (eexists; reflexivity);
      (destruct H as [[e He] | ->]; [discriminate He | eexists; reflexivity]).
  - intros linkId body H. unfold postCommentOnLink, reject.
    destruct (parseIntSafe linkId); [|eexists; reflexivity].
    destruct H as [H | ->]; [discriminate H | eexists; reflexivity].
Qed.

(** What [feed] does, step by step. *)
Lemma feed_run (filterNeedle : option jsstring) (skip take : option Z) (s : S) :
  feed filterNeedle skip take s
  = (if (nullish take 30 <? 1)%Z || (50 <? nullish take 30)%Z then
       (inl (GraphQLError
               (js "'take' argument value '" ++ Number_toString (nullish take 30%Z)
                ++ js "' is outside the valid range of '1' to '50'.")), s)
     else if (nullish skip 0 <? 0)%Z then
       (inl (GraphQLError
               (js "'skip' argument value '" ++ Number_toString (nullish skip 0%Z)
                ++ js "' should be greater than or equal to 0.")), s)
     else
       link_findMany
         {| findMany_where :=
              match filterNeedle with
              | Some (c :: needle) =>
                  OR [description (contains (c :: needle)); url (contains (c :: needle))]
              | _ => WhereAny
              end;
            findMany_skip := nullish skip 0%Z;
            findMany_take := nullish take 30%Z |} s).
Proof.
  unfold feed, bind, sync, applyTakeConstraints, applySkipConstraints.
  destruct ((nullish take 30 <? 1)%Z || (50 <? nullish take 30)%Z).
  - reflexivity.
  - destruct (nullish skip 0 <? 0)%Z; [reflexivity|].
    destruct filterNeedle as [[|c needle]|]; reflexivity.
Qed.

(** C3: [feed] takes 30 for a missing [take] and 0 for a missing [skip];
    it rejects a [take] outside 1..50 with a message naming the value, 1
    and 50, then a negative [skip], and otherwise asks the store for the
    links under the filter with that [skip] and [take]. *)
Theorem feed_spec (filterNeedle : option jsstring) (skip take : option Z) (s : S) :
  let take' := match take with Some v => v | None => 30%Z end in
  let skip' := match skip with Some v => v | None => 0%Z end in
  feed filterNeedle skip take s
  = (if (take' <? 1)%Z || (50 <? take')%Z then
       (inl (GraphQLError
               (js "'take' argument value '" ++ Number_toString take'
                ++ js "' is outside the valid range of '1' to '50'.")), s)
     else if (skip' <? 0)%Z then
       (inl (GraphQLError
               (js "'skip' argument value '" ++ Number_toString skip'
                ++ js "' should be greater than or equal to 0.")), s)
     else
       link_findMany
         {| findMany_where :=
              match filterNeedle with
              | Some (c :: needle) =>
                  OR [description (contains (c :: needle)); url (contains (c :: needle))]
              | _ => WhereAny
              end;
            findMany_skip := skip';
            findMany_take := take' |} s)
  /\ applyTakeConstraints 1 50 0
     = inl (GraphQLError
              (js "'take' argument value '0' is outside the valid range of '1' to '50'."))
  /\ applyTakeConstraints 1 50 51
     = inl (GraphQLError
              (js "'take' argument value '51' is outside the valid range of '1' to '50'."))
  /\ applyTakeConstraints 1 50 30 = inr 30%Z
  /\ applySkipConstraints (-1)
     = inl (GraphQLError
              (js "'skip' argument value '-1' should be greater than or equal to 0."))
  /\ applySkipConstraints 0 = inr 0%Z.
Proof.
  intros take' skip'. split; [|repeat split; vm_compute; reflexivity].
  apply feed_run.
Qed.

End AnyStore.

Lemma validation_failure_no_store_call_witness :
  exists msg,
    postLink (prisma := traced (Store.client N.eqb)) (js "x") [] (exampleDb, [])
    = (inl (GraphQLError msg), (exampleDb, [])).
Proof.
  apply (proj1 (proj2 (validation_failure_no_store_call
                         (traced (Store.client N.eqb)) (exampleDb, [])))).
  right. reflexivity.
Defined.

(* ===================================================================== *)
(** * The resolvers over the reference store *)
(* ===================================================================== *)

Section ReferenceStore.

Variable collate : codeunit -> codeunit -> bool.

Lemma prefixb_spec (needle text : jsstring) :
  Store.prefixb collate needle text = true
  <-> exists mid post,
      text = mid ++ post /\ Forall2 (fun a b => collate a b = true) needle mid.
Proof.
  revert text. induction needle as [|a needle IH]; intros text; simpl.
  - split; [|reflexivity]. intros _. exists [], text. split; [reflexivity | constructor].
  - destruct text as [|b text].
    + split; [discriminate|]. intros [mid [post [E H]]].
      inversion H; subst. discriminate E.
    + rewrite andb_true_iff, IH. split.
      * intros [Hab [mid [post [E H]]]]. exists (b :: mid), post.
        split; [simpl; congruence | constructor; assumption].
      * intros [mid [post [E H]]]. inversion H as [|x y n m Hxy Hnm]; subst.
        simpl in E. injection E as Eb Et. subst. split; [assumption|].
        exists m, post. auto.
Qed.

Lemma containsb_spec (needle text : jsstring) :
  Store.containsb collate needle text = true <-> Substring collate needle text.
Proof.
  unfold Substring. induction text as [|b text IH]; simpl.
  - rewrite orb_false_r, prefixb_spec. split.
    + intros [mid [post [E H]]]. exists [], mid, post. auto.
    + intros [pre [mid [post [E H]]]]. destruct pre; [|discriminate E].
      exists mid, post. auto.
  - rewrite orb_true_iff, prefixb_spec, IH. split.
    + intros [[mid [post [E H]]] | [pre [mid [post [E H]]]]].
      * exists [], mid, post. auto.
      * exists (b :: pre), mid, post. split; [simpl; congruence | assumption].
    + intros [[|x pre] [mid [post [E H]]]].
      * left. exists mid, post. auto.
      * right. simpl in E. injection E as Eb Et. subst. exists pre, mid, post. auto.
Qed.

Lemma filter_all (A : Type) (f : A -> bool) (l : list A) :
  (forall x, f x = true) -> filter f l = l.
Proof.
  intros H. induction l as [|x l IH]; simpl; [reflexivity|].
  rewrite H, IH. reflexivity.
Qed.

(** C4: over the reference store, [feed] with a non-empty needle returns
    the links whose description or url contains the needle, in store
    order, after dropping [skip] of them and keeping at most [take]; with
    no needle, or an empty one, every link takes part.  The [skip] and
    [take] are the caller's, or 0 and 30 where the caller gave none. *)
Theorem feed_filter (db : Store.Db) (filterNeedle : option jsstring) (skip take : option Z) :
  (1 <= match take with Some v => v | None => 30 end <= 50)%Z ->
  (0 <= match skip with Some v => v | None => 0 end)%Z ->
  (forall needle l,
      mentions collate needle l = true
      <-> Substring collate needle (link_description l)
          \/ Substring collate needle (link_url l))
  /\ feed (prisma := Store.client collate) filterNeedle skip take db
     = (inr (firstn (Z.to_nat match take with Some v => v | None => 30%Z end)
               (skipn (Z.to_nat match skip with Some v => v | None => 0%Z end)
                  match filterNeedle with
                  | Some (c :: needle) =>
                      filter (mentions collate (c :: needle)) (Store.links db)
                  | _ => Store.links db
                  end)), db).
Proof.
  intros Htake Hskip. split.
  - intros needle l. unfold mentions.
    rewrite orb_true_iff, !containsb_spec. reflexivity.
  - rewrite feed_run. unfold nullish.
    set (take' := match take with Some v => v | None => 30%Z end) in *.
    set (skip' := match skip with Some v => v | None => 0%Z end) in *.
    destruct (Z.ltb_spec take' 1); [lia|].
    destruct (Z.ltb_spec 50 take'); [lia|].
    destruct (Z.ltb_spec skip' 0); [lia|].
    cbn [orb link_findMany Store.client]. unfold Store.listLinks.
    cbn [findMany_where findMany_skip findMany_take].
    destruct filterNeedle as [[|c needle]|].
    + rewrite filter_all by reflexivity. reflexivity.
    + do 4 f_equal. apply filter_ext. intros l. unfold mentions. simpl.
      rewrite orb_false_r. reflexivity.
    + rewrite filter_all by reflexivity. reflexivity.
Qed.

(** C6: over the reference store, [postLink] first normalizes the url and
    rejects with the normalizer's error when that fails, whatever the
    description; then it rejects an empty description with "Cannot post
    link with empty description."; otherwise the store gains exactly one
    link, which is returned: its url is the normalized url, its
    description the given one, and its id is positive and new. *)
Theorem postLink_spec (db : Store.Db) (url description : jsstring) :
  Store.wf db ->
  match validateAndNormalizeUrl url with
  | inl err =>
      postLink (prisma := Store.client collate) url description db = (inl err, db)
  | inr normalizedUrl =>
      match description with
      | [] =>
          postLink (prisma := Store.client collate) url description db
          = (inl (GraphQLError (js "Cannot post link with empty description.")), db)
      | _ :: _ =>
          exists newLink db',
            postLink (prisma := Store.client collate) url description db
            = (inr newLink, db')
            /\ link_url newLink = normalizedUrl
            /\ link_description newLink = description
            /\ (0 < link_id newLink)%Z
            /\ Forall (fun l => link_id l <> link_id newLink) (Store.links db)
            /\ Store.links db' = Store.links db ++ [newLink]
            /\ Store.comments db' = Store.comments db
            /\ Store.wf db'
      end
  end
  /\ fst (postLink (prisma := Store.client collate)
            (js "graphql-yoga.com") (js "desc") Store.empty)
     = inr {| link_id := 1; link_createdAt := 0;
              link_description := js "desc";
              link_url := js "https://graphql-yoga.com" |}
  /\ postLink (prisma := Store.client collate) (js "example.com") [] db
     = (inl (GraphQLError (js "Cannot post link with empty description.")), db)
  /\ postLink (prisma := Store.client collate) (js "x") [] db
     = (inl (GraphQLError (js "Invalid domain format.")), db)
  /\ postLink (prisma := Store.client collate) (js "http://x") (js "desc") db
     = (inl (GraphQLError (js "Invalid URL format.")), db).
Proof.
  intros [Hl [Hc [Hls Hcs]]].
  split; [|split; [vm_compute; reflexivity|]].
  - unfold postLink, bind, sync, reject, resolve.
    destruct (validateAndNormalizeUrl url) as [err|normalizedUrl]; [reflexivity|].
    destruct description as [|c d]; [reflexivity|].
    cbn [link_create Store.client Store.createLink].
    eexists. eexists. split; [reflexivity|].
    cbn [link_url link_description link_id Store.links Store.comments
         data_url data_description].
    split; [reflexivity|]. split; [reflexivity|]. split; [lia|].
    split; [eapply Forall_impl; [|exact Hls]; cbv beta; intros l Hid; lia|].
    split; [reflexivity|]. split; [reflexivity|].
    unfold Store.wf. cbn [Store.links Store.comments Store.linkSeq Store.commentSeq].
    split; [lia|]. split; [exact Hc|]. split; [|exact Hcs].
    apply Forall_app. split.
    + eapply Forall_impl; [|exact Hls]. cbv beta. intros l Hid. lia.
    + constructor; [|constructor]. cbn [link_id]. lia.
  - assert (E1 : validateAndNormalizeUrl (js "example.com") = inr (js "https://example.com"))
      by (vm_compute; reflexivity).
    assert (E2 : validateAndNormalizeUrl (js "x")
                 = inl (GraphQLError (js "Invalid domain format.")))
      by (vm_compute; reflexivity).
    assert (E3 : validateAndNormalizeUrl (js "http://x")
                 = inl (GraphQLError (js "Invalid URL format.")))
      by (vm_compute; reflexivity).
    unfold postLink, bind, sync, reject. rewrite E1, E2, E3.
    repeat split; reflexivity.
Qed.

Lemma insertDesc_perm (c : Comment) (l : list Comment) :
  Permutation (Store.insertDesc c l) (c :: l).
Proof.
  induction l as [|x l IH]; simpl; [reflexivity|].
  destruct (comment_createdAt x <? comment_createdAt c)%Z; [reflexivity|].
  rewrite IH. apply perm_swap.
Qed.

Lemma sortDesc_perm (l : list Comment) :
  Permutation (Store.sortByCreatedAt desc l) l.
Proof.
  induction l as [|x l IH]; simpl; [reflexivity|].
  rewrite insertDesc_perm. constructor. exact IH.
Qed.

Lemma insertDesc_sorted (c : Comment) (l : list Comment) :
  StronglySorted newerFirst l -> StronglySorted newerFirst (Store.insertDesc c l).
Proof.
  induction l as [|x l IH]; simpl; intros Hs.
  - constructor; constructor.
  - apply StronglySorted_inv in Hs. destruct Hs as [Hl Hx].
    destruct (Z.ltb_spec (comment_createdAt x) (comment_createdAt c)).
    + constructor; [constructor; assumption|].
      constructor; [unfold newerFirst; lia|].
      eapply Forall_impl; [|exact Hx]. unfold newerFirst. intros a Ha. lia.
    + constructor; [apply IH, Hl|].
      apply (Permutation_Forall (Permutation_sym (insertDesc_perm c l))).
      constructor; [unfold newerFirst; lia | exact Hx].
Qed.

Lemma sortDesc_sorted (l : list Comment) :
  StronglySorted newerFirst (Store.sortByCreatedAt desc l).
Proof.
  induction l as [|x l IH]; simpl; [constructor|].
  apply insertDesc_sorted, IH.
Qed.

(** In a list sorted newest first an older comment never comes before a
    newer one. *)
Lemma newerFirst_positions (l : list Comment) :
  StronglySorted newerFirst l ->
  forall i j a b,
    nth_error l i = Some a -> nth_error l j = Some b ->
    (comment_createdAt a < comment_createdAt b)%Z -> (j < i)%nat.
Proof.
  induction 1 as [|x l Hs IH Hx]; intros i j a b Hi Hj Hlt.
  - destruct i; discriminate Hi.
  - destruct i as [|i], j as [|j]; simpl in *.
    + injection Hi as <-. injection Hj as <-. lia.
    + injection Hi as <-. apply nth_error_In in Hj.
      rewrite Forall_forall in Hx. specialize (Hx _ Hj).
      unfold newerFirst in Hx. lia.
    + lia.
    + specialize (IH i j a b Hi Hj Hlt). lia.
Qed.

(** C8: over the reference store, [Link.comments] returns the
    comments whose [linkId] is the link's id, each as often as the store
    holds it, sorted by [createdAt] descending: of two returned comments
    the one created later stands first. *)
Theorem Link_comments_newest_first (parent : Link) (db : Store.Db) :
  (exists cs,
      Link_comments (prisma := Store.client collate) parent db = (inr cs, db)
      /\ Permutation cs
           (filter (fun c => (comment_linkId c =? link_id parent)%Z) (Store.comments db))
      /\ (forall c, In c cs <-> In c (Store.comments db) /\ comment_linkId c = link_id parent)
      /\ StronglySorted newerFirst cs
      /\ (forall i j older newer,
             nth_error cs i = Some older -> nth_error cs j = Some newer ->
             (comment_createdAt older < comment_createdAt newer)%Z -> (j < i)%nat))
  /\ fst (Link_comments (prisma := Store.client collate)
            {| link_id := 1; link_createdAt := 10;
               link_description := js "The easiest way of setting up a GraphQL server";
               link_url := js "https://graphql-yoga.com" |} exampleDb)
     = inr [ {| comment_id := 2; comment_createdAt := 40;
                comment_body := js "second"; comment_linkId := 1 |};
             {| comment_id := 1; comment_createdAt := 30;
                comment_body := js "first"; comment_linkId := 1 |} ].
Proof.
  split; [|vm_compute; reflexivity].
  eexists. split; [reflexivity|].
  cbn [Store.listCommentsForLink orderBy_createdAt where_linkId].
  split; [apply sortDesc_perm|]. split; [|split].
  - intros c. split.
    + intros Hin. apply (Permutation_in c (sortDesc_perm _)) in Hin.
      apply filter_In in Hin. destruct Hin as [Hin Hid].
      apply Z.eqb_eq in Hid. auto.
    + intros [Hin Hid].
      apply (Permutation_in c (Permutation_sym (sortDesc_perm _))).
      apply filter_In. split; [exact Hin | apply Z.eqb_eq, Hid].
  - apply sortDesc_sorted.
  - apply newerFirst_positions, sortDesc_sorted.
Qed.

End ReferenceStore.

Lemma feed_filter_witness :
  (1 <= 1 <= 50)%Z
  /\ (0 <= 1)%Z
  /\ feed (prisma := Store.client N.eqb) (Some (js "http")) (Some 1%Z) (Some 1%Z) exampleDb
     = (inr [ {| link_id := 2; link_createdAt := 20;
                 link_description := js "An example";
                 link_url := js "https://example.com" |} ], exampleDb)
  /\ feed (prisma := Store.client N.eqb) (Some (js "yoga")) (Some 0%Z) (Some 10%Z) exampleDb
     = (inr [ {| link_id := 1; link_createdAt := 10;
                 link_description := js "The easiest way of setting up a GraphQL server";
                 link_url := js "https://graphql-yoga.com" |} ], exampleDb).
Proof.
  assert (H1 : (1 <= 1 <= 50)%Z) by lia.
  assert (H2 : (0 <= 1)%Z) by lia.
  assert (H3 : (1 <= 10 <= 50)%Z) by lia.
  assert (H4 : (0 <= 0)%Z) by lia.
  split; [exact H1|]. split; [exact H2|]. split.
  - exact (proj2 (feed_filter N.eqb exampleDb (Some (js "http")) (Some 1%Z) (Some 1%Z) H1 H2)).
  - exact (proj2 (feed_filter N.eqb exampleDb (Some (js "yoga")) (Some 0%Z) (Some 10%Z) H3 H4)).
Defined.

Lemma empty_wf : Store.wf Store.empty.
Proof. unfold Store.wf. simpl. repeat split; try lia; constructor. Qed.

(** A created comment keeps the store well formed. *)
Lemma createComment_wf (data : CommentCreateInput) (db : Store.Db) :
  Store.wf db -> Store.wf (snd (Store.createComment data db)).
Proof.
  intros [Hl [Hc [Hls Hcs]]]. unfold Store.createComment.
  destruct (Store.findLinkById (data_linkId data) db); simpl.
  - unfold Store.wf. simpl. split; [exact Hl|]. split; [lia|]. split; [exact Hls|].
    apply Forall_app. split.
    + eapply Forall_impl; [|exact Hcs]. cbv beta. intros c Hid. lia.
    + constructor; [|constructor]. simpl. lia.
  - unfold Store.wf. auto.
Qed.

Lemma example_wf : Store.wf exampleDb.
Proof.
  unfold Store.wf, exampleDb; simpl.
  repeat split; try lia; repeat constructor; simpl; lia.
Defined.

Lemma postLink_spec_witness :
  Store.wf exampleDb
  /\ exists newLink db',
      postLink (prisma := Store.client N.eqb) (js "graphql-yoga.com") (js "desc") exampleDb
      = (inr newLink, db')
      /\ link_url newLink = js "https://graphql-yoga.com"
      /\ link_description newLink = js "desc"
      /\ (0 < link_id newLink)%Z
      /\ Forall (fun l => link_id l <> link_id newLink) (Store.links exampleDb)
      /\ Store.links db' = Store.links exampleDb ++ [newLink]
      /\ Store.comments db' = Store.comments exampleDb
      /\ Store.wf db'.
Proof.
  split; [exact example_wf|].
  exact (proj1 (postLink_spec N.eqb (js "graphql-yoga.com") (js "desc") example_wf)).
Defined.

(* ===================================================================== *)
(** * The lenient lookups *)
(* ===================================================================== *)

Lemma hexPrefix_digits (ds : jsstring) :
  forallb isAsciiDigit ds = true -> hexPrefix ds = false.
Proof.
  destruct ds as [|a [|b ds]]; simpl; try reflexivity.
  intros H. apply andb_true_iff in H. destruct H as [_ H].
  apply andb_true_iff in H. destruct H as [Hb _].
  unfold isAsciiDigit in Hb. apply andb_true_iff in Hb. destruct Hb as [H1 H2].
  apply N.leb_le in H1, H2.
  change (ch "x") with 120%N. change (ch "X") with 88%N.
  destruct (N.eqb_spec b 120); [lia|]. destruct (N.eqb_spec b 88); [lia|].
  apply andb_false_r.
Qed.

Lemma parseInt_digits (ds : jsstring) :
  allDigits ds = true -> parseInt ds None = toNumber (valueOf ds).
Proof.
  intros Hd. rewrite <- (app_nil_r ds) at 1.
  apply parseInt_digits_prefix; [exact Hd | exact I |].
  right. split; [reflexivity|]. rewrite app_nil_r. apply hexPrefix_digits.
  destruct ds; [discriminate | exact Hd].
Qed.

Lemma parseInt_no_number (id : jsstring) :
  match id with
  | c :: _ => isAsciiDigit c = false /\ isWhiteSpace c = false
              /\ c <> ch "+" /\ c <> ch "-"
  | [] => True
  end ->
  parseInt id None = NaN.
Proof.
  destruct id as [|c r]; [reflexivity|].
  intros [Hd [Hw [Hp Hm]]].
  apply N.eqb_neq in Hp, Hm.
  assert (H0 : (c =? ch "0")%N = false).
  { apply N.eqb_neq. intros ->. discriminate Hd. }
  unfold parseInt. cbn [trimStart]. rewrite Hw. cbv zeta.
  rewrite Hp, Hm. cbn [orb]. rewrite H0.
  cbn [Z.eqb Z.ltb negb andb orb].
  destruct r as [|b r]; cbn [takeWhile]; rewrite digit_radix10, Hd; reflexivity.
Qed.

(** C9 (amended): an id made of decimal digits followed by something that
    does not start with a digit, and not read as hexadecimal (it does not
    start with 0x or 0X), is looked up under the Number value of its digit
    prefix, the integer itself up to [2^53], so [link] and [comment]
    answer as for the prefix alone.  An id that starts with neither a
    digit, white space nor a sign is looked up under NaN: the resolver
    raises no error of its own, and the reference store answers absent. *)
Theorem lenient_lookup (S : Type) (prisma : PrismaClient S) (s : S)
        (collate : codeunit -> codeunit -> bool) (db : Store.Db)
        (ds rest id : jsstring) :
  allDigits ds = true ->
  match rest with c :: _ => isAsciiDigit c = false | [] => True end ->
  hexPrefix (ds ++ rest) = false ->
  match id with
  | c :: _ => isAsciiDigit c = false /\ isWhiteSpace c = false
              /\ c <> ch "+" /\ c <> ch "-"
  | [] => True
  end ->
  parseInt (ds ++ rest) None
  = (if (valueOf ds <=? 2 ^ 53)%Z then Num (valueOf ds) else F (valueOf ds))
  /\ link (ds ++ rest) s = link ds s
  /\ comment (ds ++ rest) s = comment ds s
  /\ link (prisma := Store.client collate) (ds ++ rest) db
     = (inr (Store.findLinkById (parseInt ds None) db), db)
  /\ comment (prisma := Store.client collate) (ds ++ rest) db
     = (inr (Store.findCommentById (parseInt ds None) db), db)
  /\ parseInt id None = NaN
  /\ link id s = link_findUnique NaN s
  /\ comment id s = comment_findUnique NaN s
  /\ link (prisma := Store.client collate) id db = (inr None, db)
  /\ comment (prisma := Store.client collate) id db = (inr None, db).
Proof.
  intros Hd Hr Hhex Hid.
  assert (E : parseInt (ds ++ rest) None = parseInt ds None).
  { rewrite (parseInt_digits _ Hd). apply parseInt_digits_prefix; auto. }
  pose proof (parseInt_no_number id Hid) as En.
  unfold link, comment. rewrite E, En.
  repeat split; try reflexivity.
  rewrite (parseInt_digits _ Hd). apply toNumber_cases, Hd.
Qed.

(** C9 (as stated) fails: "0xf" is the digit 0 followed by two code units
    that are no digits, yet it is looked up as 15, not as 0. *)
Lemma lenient_lookup_hex :
  allDigits (js "0") = true
  /\ existsb isAsciiDigit (js "xf") = false
  /\ valueOf (js "0") = 0%Z
  /\ parseInt (js "0xf") None = Num 15
  /\ parseInt (js "0") None = Num 0
  /\ link (prisma := Store.client N.eqb) (js "0xf") lenient_lookup_db
     = (inr (Some {| link_id := 15; link_createdAt := 0;
                     link_description := js "a link";
                     link_url := js "https://example.com" |}), lenient_lookup_db)
  /\ link (prisma := Store.client N.eqb) (js "0") lenient_lookup_db
     = (inr None, lenient_lookup_db).
Proof. repeat split; vm_compute; reflexivity. Qed.


Lemma lenient_lookup_witness :
  allDigits (js "12") = true
  /\ isAsciiDigit (ch "a") = false
  /\ hexPrefix (js "12abc") = false
  /\ parseInt (js "12abc") None = Num 12
  /\ link (prisma := Store.client N.eqb) (js "12abc") exampleDb
     = link (prisma := Store.client N.eqb) (js "12") exampleDb
  /\ parseInt (js "abc") None = NaN.
Proof.
  assert (Hd : allDigits (js "12") = true) by reflexivity.
  assert (Hr : match js "abc" with c :: _ => isAsciiDigit c = false | [] => True end)
    by reflexivity.
  assert (Hh : hexPrefix (js "12" ++ js "abc") = false) by reflexivity.
  assert (Hi : match js "abc" with
               | c :: _ => isAsciiDigit c = false /\ isWhiteSpace c = false
                           /\ c <> ch "+" /\ c <> ch "-"
               | [] => True
               end)
    by (simpl; repeat split; discriminate).
  destruct (lenient_lookup (Store.client N.eqb) exampleDb N.eqb exampleDb
                           (js "12") (js "abc") (js "abc") Hd Hr Hh Hi)
    as [E1 [E2 [_ [_ [_ [E3 _]]]]]].
  split; [exact Hd|]. split; [reflexivity|]. split; [exact Hh|].
  split; [exact E1|]. split; [exact E2 | exact E3].
Defined.

(* ===================================================================== *)
(** * More on the runtime *)
(* ===================================================================== *)

Lemma trimStart_ws_app (l s : jsstring) :
  forallb isWhiteSpace l = true -> trimStart (l ++ s) = trimStart s.
Proof.
  induction l as [|c l IH]; simpl; [reflexivity|].
  intros H. apply andb_true_iff in H. destruct H as [Hc Hl].
  rewrite Hc. apply IH, Hl.
Qed.

Lemma trimStart_ws (l : jsstring) :
  forallb isWhiteSpace l = true -> trimStart l = [].
Proof.
  intros H. rewrite <- (app_nil_r l). rewrite trimStart_ws_app by exact H. reflexivity.
Qed.

Lemma forallb_rev (f : codeunit -> bool) (l : jsstring) :
  forallb f l = true -> forallb f (rev l) = true.
Proof.
  rewrite !forallb_forall. intros H c Hc. apply H, in_rev, Hc.
Qed.

Lemma trimEnd_app_ws (s r : jsstring) :
  forallb isWhiteSpace r = true -> trimEnd (s ++ r) = trimEnd s.
Proof.
  intros H. unfold trimEnd. rewrite rev_app_distr.
  rewrite trimStart_ws_app by (apply forallb_rev, H). reflexivity.
Qed.

(** White space around a text does not change what [trim] leaves. *)
Lemma trim_padding (l x r : jsstring) :
  forallb isWhiteSpace l = true -> forallb isWhiteSpace r = true ->
  trim (l ++ x ++ r) = trim x.
Proof.
  intros Hl Hr. unfold trim. rewrite trimStart_ws_app by exact Hl.
  induction x as [|c x IH]; simpl.
  - rewrite trimStart_ws by exact Hr. reflexivity.
  - destruct (isWhiteSpace c); [exact IH|].
    apply (trimEnd_app_ws (c :: x)), Hr.
Qed.

(** ** Decimal printing and parsing *)

Lemma js_string_of_uint_digits (d : Decimal.uint) :
  forallb isAsciiDigit (js (NilEmpty.string_of_uint d)) = true.
Proof. induction d; simpl; auto. Qed.

Lemma horner_of_uint_acc (d : Decimal.uint) :
  forall acc : positive,
    fold_left (fun acc c => acc * 10 + match digitValue c with Some d => d | None => 0 end)%Z
              (js (NilEmpty.string_of_uint d)) (Zpos acc)
    = Zpos (Pos.of_uint_acc d acc).
Proof.
  induction d; intros acc; cbn [NilEmpty.string_of_uint Pos.of_uint_acc];
    [reflexivity|..];
    unfold js; cbn [list_ascii_of_string map fold_left]; fold (js (NilEmpty.string_of_uint d));
    rewrite <- IHd; f_equal; vm_compute digitValue; lia.
Qed.

Lemma mathInt_of_uint (d : Decimal.uint) :
  mathInt 10 (js (NilEmpty.string_of_uint d)) = Z.of_N (Pos.of_uint d).
Proof.
  unfold mathInt.
  induction d; cbn [NilEmpty.string_of_uint Pos.of_uint];
    [reflexivity|..];
    unfold js; cbn [list_ascii_of_string map fold_left];
    fold (js (NilEmpty.string_of_uint d));
    try exact IHd;
    match goal with
    | |- fold_left _ _ ?a = Z.of_N (Npos (Pos.of_uint_acc d ?p)) =>
        change a with (Zpos p); apply horner_of_uint_acc
    end.
Qed.

(** What a template literal prints for a non-negative integer is its
    decimal numeral. *)
Lemma Number_toString_digits (z : Z) :
  (0 <= z)%Z ->
  allDigits (Number_toString z) = true /\ valueOf (Number_toString z) = z.
Proof.
  intros Hz. destruct z as [|p|p]; [split; reflexivity| |lia].
  unfold Number_toString. cbn [Z.to_int NilZero.string_of_int].
  assert (E : NilZero.string_of_uint (Pos.to_uint p)
              = NilEmpty.string_of_uint (Pos.to_uint p)).
  { pose proof (DecimalPos.Unsigned.to_uint_nonnil p) as Hn.
    destruct (Pos.to_uint p); [contradiction|reflexivity..]. }
  rewrite E.
  pose proof (js_string_of_uint_digits (Pos.to_uint p)) as Hd.
  split.
  - unfold allDigits.
    pose proof (DecimalPos.Unsigned.to_uint_nonnil p) as Hn.
    destruct (Pos.to_uint p); [contradiction|exact Hd..].
  - rewrite <- (mathInt_valueOf _ Hd), mathInt_of_uint.
    rewrite DecimalPos.Unsigned.of_to. reflexivity.
Qed.

Lemma Number_toString_inj (a b : Z) :
  (0 <= a)%Z -> (0 <= b)%Z -> Number_toString a = Number_toString b -> a = b.
Proof.
  intros Ha Hb E.
  rewrite <- (proj2 (Number_toString_digits Ha)), <- (proj2 (Number_toString_digits Hb)).
  rewrite E. reflexivity.
Qed.

(** [parseInt] reads back what a template literal printed. *)
Lemma parseInt_Number_toString (z : Z) :
  (0 <= z <= 2 ^ 53)%Z -> parseInt (Number_toString z) None = Num z.
Proof.
  intros Hz. destruct (Number_toString_digits (z := z)) as [Hd Hv]; [lia|].
  rewrite (parseInt_digits _ Hd), Hv. apply toNumber_exact, Hz.
Qed.

(** ** [parseIntSafe] *)

Lemma parseIntSafe_digits (s : jsstring) :
  allDigits s = true -> parseIntSafe s = Some (toNumber (valueOf s)).
Proof.
  intros Hd. unfold parseIntSafe. rewrite test_re_digits, Hd. f_equal.
  rewrite <- (app_nil_r s) at 1.
  apply parseInt_digits_prefix; [exact Hd | exact I | left; reflexivity].
Qed.

Lemma parseIntSafe_accepts (s : jsstring) (n : number) :
  parseIntSafe s = Some n -> allDigits s = true /\ n = toNumber (valueOf s).
Proof.
  intros H. destruct (allDigits s) eqn:Hd.
  - rewrite (parseIntSafe_digits _ Hd) in H. split; congruence.
  - unfold parseIntSafe in H. rewrite test_re_digits, Hd in H. discriminate H.
Qed.

Lemma allDigits_forallb (s : jsstring) :
  allDigits s = true -> forallb isAsciiDigit s = true.
Proof. destruct s; [discriminate | exact (fun H => H)]. Qed.

(** The Number value of a non-negative integer is a non-negative integer
    or the positive infinity. *)
Lemma toNumber_range (z : Z) :
  (0 <= z)%Z ->
  (exists v, toNumber z = Num v /\ (0 <= v)%Z) \/ toNumber z = Infinity false.
Proof.
  intros Hz. unfold toNumber. destruct (Z.eqb_spec z 0) as [->|Hne].
  - left. exists 0%Z. split; [reflexivity | lia].
  - unfold F. destruct (2 ^ 1024 <=? round53 (Z.abs_N z))%N.
    + right. destruct (Z.ltb_spec z 0); [lia | reflexivity].
    + left. eexists. split; [reflexivity|].
      assert (Z.sgn z = 1%Z) by (apply Z.sgn_pos; lia). lia.
Qed.

(** Rounding to 53 bits does not bring a number below a power of two it
    has reached. *)
Lemma round53_overflow (n : N) : (2 ^ 1024 <= n)%N -> (2 ^ 1024 <= round53 n)%N.
Proof.
  intros Hn. unfold round53.
  destruct (N.leb_spec n (2 ^ 53)) as [Hle|Hgt]; [exact Hn|].
  assert (Hpos : (0 < n)%N) by (eapply N.lt_le_trans; [|exact Hn]; apply N.neq_0_lt_0, N.pow_nonzero; lia).
  destruct (N.log2_spec n Hpos) as [Hlo Hhi].
  assert (Hlog : (1024 <= N.log2 n)%N).
  { apply N.log2_le_pow2; assumption. }
  set (e := (N.log2 n - 52)%N).
  assert (He : (N.log2 n = e + 52)%N) by (unfold e; lia).
  set (q := N.shiftr n e).
  assert (Hq : (2 ^ 52 <= q)%N).
  { unfold q. rewrite N.shiftr_div_pow2.
    apply N.div_le_lower_bound; [apply N.pow_nonzero; lia|].
    rewrite <- N.pow_add_r, <- He. exact Hlo. }
  assert (Hq' : (q <= if (2 ^ (e - 1) <? n mod 2 ^ e)%N
                           || ((n mod 2 ^ e =? 2 ^ (e - 1))%N && N.odd q)
                      then q + 1 else q)%N).
  { destruct ((2 ^ (e - 1) <? n mod 2 ^ e)%N
              || ((n mod 2 ^ e =? 2 ^ (e - 1))%N && N.odd q)); lia. }
  rewrite N.shiftl_mul_pow2.
  apply N.le_trans with (2 ^ 52 * 2 ^ e)%N.
  - rewrite <- N.pow_add_r. apply N.pow_le_mono_r; lia.
  - apply N.mul_le_mono_r. lia.
Qed.

(** X1: a link id that [parseIntSafe] accepts is read by the lenient
    [parseInt] of the create call as the same number: what
    [postCommentOnLink] validates is what it sends to the store. *)
Theorem parseIntSafe_parseInt_agree (linkId : jsstring) (n : number) :
  parseIntSafe linkId = Some n -> parseInt linkId None = n.
Proof.
  intros H. apply parseIntSafe_accepts in H. destruct H as [Hd ->].
  apply parseInt_digits, Hd.
Qed.

Lemma parseIntSafe_parseInt_agree_witness :
  parseIntSafe (js "42") = Some (Num 42) /\ parseInt (js "42") None = Num 42.
Proof.
  assert (H : parseIntSafe (js "42") = Some (Num 42)) by (vm_compute; reflexivity).
  split; [exact H | exact (parseIntSafe_parseInt_agree (js "42") H)].
Defined.

(** X2: what [parseIntSafe] returns is never NaN, never negative and never
    the negative zero: it is a non-negative integer or the positive
    infinity. *)
Theorem parseIntSafe_range (s : jsstring) (n : number) :
  parseIntSafe s = Some n ->
  (exists v, n = Num v /\ (0 <= v)%Z) \/ n = Infinity false.
Proof.
  intros H. apply parseIntSafe_accepts in H. destruct H as [Hd ->].
  apply toNumber_range, valueOf_nonneg, allDigits_forallb, Hd.
Qed.

Lemma parseIntSafe_range_witness :
  parseIntSafe (js "007") = Some (Num 7)
  /\ ((exists v, Num 7 = Num v /\ (0 <= v)%Z) \/ Num 7 = Infinity false).
Proof.
  assert (H : parseIntSafe (js "007") = Some (Num 7)) by (vm_compute; reflexivity).
  split; [exact H | exact (parseIntSafe_range (js "007") H)].
Defined.

(** X3: a string of digits that denotes [2^1024] or more passes
    [parseIntSafe] as the positive infinity. *)
Theorem parseIntSafe_overflow (s : jsstring) :
  allDigits s = true -> (2 ^ 1024 <= valueOf s)%Z ->
  parseIntSafe s = Some (Infinity false).
Proof.
  intros Hd Hv. rewrite (parseIntSafe_digits _ Hd). f_equal.
  assert (Hp : (0 < 2 ^ 1024)%Z) by (apply Z.pow_pos_nonneg; lia).
  unfold toNumber. destruct (Z.eqb_spec (valueOf s) 0) as [E|_]; [lia|].
  unfold F.
  assert (Hn : (2 ^ 1024 <= Z.abs_N (valueOf s))%N).
  { apply N2Z.inj_le. rewrite N2Z.inj_abs_N, N2Z.inj_pow. simpl Z.of_N. lia. }
  apply round53_overflow, N.leb_le in Hn. rewrite Hn.
  destruct (Z.ltb_spec (valueOf s) 0); [lia | reflexivity].
Qed.

Lemma parseIntSafe_overflow_witness :
  allDigits (ch "1" :: repeat (ch "0") 309) = true
  /\ (2 ^ 1024 <= valueOf (ch "1" :: repeat (ch "0") 309))%Z
  /\ parseIntSafe (ch "1" :: repeat (ch "0") 309) = Some (Infinity false).
Proof.
  assert (Hd : allDigits (ch "1" :: repeat (ch "0") 309) = true)
    by (vm_compute; reflexivity).
  assert (Hv : (2 ^ 1024 <= valueOf (ch "1" :: repeat (ch "0") 309))%Z)
    by (vm_compute; discriminate).
  split; [exact Hd|]. split; [exact Hv|].
  exact (parseIntSafe_overflow _ Hd Hv).
Defined.

Lemma valueOf_zeros (k : nat) (s : jsstring) :
  valueOf (repeat (ch "0") k ++ s) = valueOf s.
Proof.
  induction k as [|k IH]; [reflexivity|].
  cbn [repeat app valueOf]. rewrite IH. change (Z.of_N (ch "0")) with 48%Z. lia.
Qed.

(** X4: zeros in front of a link id do not change the number
    [parseIntSafe] returns. *)
Theorem parseIntSafe_leading_zeros (k : nat) (s : jsstring) :
  allDigits s = true ->
  parseIntSafe (repeat (ch "0") k ++ s) = parseIntSafe s.
Proof.
  intros Hd.
  assert (Hz : allDigits (repeat (ch "0") k ++ s) = true).
  { pose proof (allDigits_forallb _ Hd) as Hs.
    assert (Hall : forallb isAsciiDigit (repeat (ch "0") k ++ s) = true).
    { rewrite forallb_app, Hs, andb_true_r.
      induction k as [|k IH]; [reflexivity | exact IH]. }
    destruct (repeat (ch "0") k ++ s) eqn:E; [|exact Hall].
    apply app_eq_nil in E. destruct E as [_ ->]. discriminate Hd. }
  rewrite (parseIntSafe_digits _ Hz), (parseIntSafe_digits _ Hd), valueOf_zeros.
  reflexivity.
Qed.

Lemma parseIntSafe_leading_zeros_witness :
  allDigits (js "7") = true
  /\ parseIntSafe (repeat (ch "0") 2 ++ js "7") = parseIntSafe (js "7").
Proof.
  assert (Hd : allDigits (js "7") = true) by reflexivity.
  split; [exact Hd | exact (parseIntSafe_leading_zeros 2 (js "7") Hd)].
Defined.

(** X5: white space before and after a URL does not change what
    [validateAndNormalizeUrl] returns. *)
Theorem validateAndNormalizeUrl_padding (l url r : jsstring) :
  forallb isWhiteSpace l = true -> forallb isWhiteSpace r = true ->
  validateAndNormalizeUrl (l ++ url ++ r) = validateAndNormalizeUrl url.
Proof.
  intros Hl Hr. unfold validateAndNormalizeUrl.
  rewrite (trim_padding l url r Hl Hr). reflexivity.
Qed.

Lemma validateAndNormalizeUrl_padding_witness :
  forallb isWhiteSpace (js "  ") = true
  /\ forallb isWhiteSpace [10%N] = true
  /\ validateAndNormalizeUrl (js "  " ++ js "example.com" ++ [10%N])
     = validateAndNormalizeUrl (js "example.com").
Proof.
  assert (Hl : forallb isWhiteSpace (js "  ") = true) by reflexivity.
  assert (Hr : forallb isWhiteSpace [10%N] = true) by reflexivity.
  split; [exact Hl|]. split; [exact Hr|].
  exact (validateAndNormalizeUrl_padding (js "  ") (js "example.com") [10%N] Hl Hr).
Defined.

(* ===================================================================== *)
(** * What the URL patterns let through *)
(* ===================================================================== *)

Section Alphabet.

Variables lo hi : codeunit.

Lemma in_class_within (cls : charclass) (c : codeunit) :
  forallb (itemWithin lo hi) cls = true -> in_class cls c = true -> inRange lo hi c = true.
Proof.
  unfold in_class, inRange. induction cls as [|i cls IH]; simpl; [discriminate|].
  intros Hw Hc. apply andb_true_iff in Hw. destruct Hw as [Hi Hw].
  apply orb_true_iff in Hc. destruct Hc as [Hc|Hc]; [|exact (IH Hw Hc)].
  destruct i as [x|a b]; simpl in Hi, Hc.
  - apply N.eqb_eq in Hc. subst x. exact Hi.
  - apply andb_true_iff in Hi, Hc. destruct Hi as [H1 H2], Hc as [H3 H4].
    apply N.leb_le in H1, H2, H3, H4.
    apply andb_true_iff. split; apply N.leb_le; lia.
Qed.

Lemma runRep_within (cls : charclass) (s : jsstring) :
  forallb (itemWithin lo hi) cls = true ->
  forall min max prev st',
    In st' (runRep cls min max prev s) ->
    exists pre, s = pre ++ snd st' /\ forallb (inRange lo hi) pre = true.
Proof.
  intros Hw. induction s as [|c s IH]; intros min max prev st' Hin.
  - simpl in Hin. destruct min; [|contradiction].
    destruct Hin as [<-|[]]. exists []. auto.
  - assert (Hstop : In st' match min with O => [(prev, c :: s)] | S _ => [] end ->
                    exists pre, c :: s = pre ++ snd st' /\ forallb (inRange lo hi) pre = true).
    { destruct min; [|contradiction]. intros [<-|[]]. exists []. auto. }
    cbn [runRep] in Hin.
    destruct (in_class cls c) eqn:Hc; cbn [andb] in Hin; [|exact (Hstop Hin)].
    destruct (match max with Some O => false | _ => true end); [|exact (Hstop Hin)].
    apply in_app_or in Hin. destruct Hin as [Hin|Hin]; [|exact (Hstop Hin)].
    destruct (IH _ _ _ _ Hin) as [pre [E Hpre]].
    exists (c :: pre). split; [simpl; congruence|].
    simpl. rewrite (in_class_within _ _ Hw Hc), Hpre. reflexivity.
Qed.

Lemma startsWith_split (l s rest : jsstring) :
  startsWith l s = Some rest -> s = l ++ rest.
Proof.
  revert s. induction l as [|a l IH]; intros s; simpl.
  - intros H. congruence.
  - destruct s as [|b s]; [discriminate|].
    destruct (N.eqb_spec a b) as [->|]; [|discriminate].
    intros H. rewrite (IH _ H). reflexivity.
Qed.

(** A pattern consumes code units of its alphabet only. *)
Lemma run_within (r : regex) :
  within lo hi r = true ->
  forall st st',
    In st' (run r st) ->
    exists pre, snd st = pre ++ snd st' /\ forallb (inRange lo hi) pre = true.
Proof.
  induction r as [| | |l|cls min max|r IH|r1 IH1 r2 IH2]; intros Hw st st' Hin;
    cbn [run within] in *.
  - destruct (fst st); [contradiction|]. destruct Hin as [<-|[]]. exists []. auto.
  - destruct (snd st) eqn:E; [|contradiction]. destruct Hin as [<-|[]].
    exists []. rewrite E. auto.
  - destruct (xorb _ _); [|contradiction]. destruct Hin as [<-|[]]. exists []. auto.
  - destruct (startsWith l (snd st)) as [rest|] eqn:E; [|contradiction].
    destruct Hin as [<-|[]]. exists l. split; [exact (startsWith_split _ _ E) | exact Hw].
  - exact (runRep_within _ _ Hw _ _ _ _ Hin).
  - apply in_app_or in Hin. destruct Hin as [Hin|[<-|[]]].
    + exact (IH Hw _ _ Hin).
    + exists []. auto.
  - apply andb_true_iff in Hw. destruct Hw as [H1 H2].
    apply in_flat_map in Hin. destruct Hin as [mid [Hm Hin]].
    destruct (IH1 H1 _ _ Hm) as [p1 [E1 F1]].
    destruct (IH2 H2 _ _ Hin) as [p2 [E2 F2]].
    exists (p1 ++ p2). split.
    + rewrite E1, E2, app_assoc. reflexivity.
    + rewrite forallb_app, F1, F2. reflexivity.
Qed.

Lemma run_endsAtEol (r : regex) :
  endsAtEol r = true -> forall st st', In st' (run r st) -> snd st' = [].
Proof.
  induction r as [| | |l|cls min max|r IH|r1 IH1 r2 IH2]; intros He st st' Hin;
    cbn [run endsAtEol] in *; try discriminate He.
  - destruct (snd st) eqn:E; [|contradiction]. destruct Hin as [<-|[]]. exact E.
  - apply in_flat_map in Hin. destruct Hin as [mid [_ Hin]]. exact (IH2 He _ _ Hin).
Qed.

(** A text accepted by an anchored pattern is made of the pattern's
    alphabet. *)
Lemma test_within (r : regex) (t : jsstring) :
  within lo hi r = true -> endsAtEol r = true ->
  test (Cat Bol r) t = true -> forallb (inRange lo hi) t = true.
Proof.
  intros Hw He Ht. rewrite test_Bol in Ht. unfold matchesAt in Ht.
  destruct (run r (None, t)) as [|st' rest] eqn:E; [discriminate|].
  assert (Hin : In st' (run r (None, t))) by (rewrite E; left; reflexivity).
  destruct (run_within r Hw _ _ Hin) as [pre [Ep Hp]].
  rewrite (run_endsAtEol r He _ _ Hin), app_nil_r in Ep. simpl in Ep.
  subst. exact Hp.
Qed.

End Alphabet.

Lemma urlChar_not_space (c : codeunit) : isUrlChar c = true -> isWhiteSpace c = false.
Proof.
  unfold isUrlChar, isWhiteSpace. intros H.
  apply andb_true_iff in H. destruct H as [H1 H2].
  apply N.leb_le in H1, H2.
  repeat match goal with
         | |- context [(?a <=? ?b)%N] => destruct (N.leb_spec a b)
         | |- context [(?a =? ?b)%N] => destruct (N.eqb_spec a b)
         end; simpl; try reflexivity; lia.
Qed.

(** A URL that [validateAndNormalizeUrl] returns starts with a scheme and
    is made of printable ASCII other than the space. *)
Lemma normalized_shape (text normalized : jsstring) :
  validateAndNormalizeUrl text = inr normalized ->
  hasScheme normalized = true /\ forallb isUrlChar normalized = true.
Proof.
  unfold validateAndNormalizeUrl. rewrite test_re_scheme.
  destruct (hasScheme (trim text)) eqn:Hs.
  - destruct (test re_url (trim text)) eqn:Hu; cbn [negb]; [|discriminate].
    intros H. apply inr_inj in H. subst normalized. split; [exact Hs|].
    apply (test_within 33%N 126%N _ (trim text)) in Hu; [exact Hu|reflexivity..].
  - destruct (test re_domain (trim text)) eqn:Hd; cbn [negb]; [|discriminate].
    intros H. apply inr_inj in H. subst normalized.
    split; [apply hasScheme_https|].
    apply (test_within 33%N 126%N _ (trim text)) in Hd; [|reflexivity..].
    rewrite forallb_app. apply andb_true_iff. split; [reflexivity | exact Hd].
Qed.

(** X6: a URL that [validateAndNormalizeUrl] returns starts with [http://]
    or [https://] and consists of printable ASCII code units other than the
    space, so it holds no white space anywhere. *)
Theorem validateAndNormalizeUrl_shape (text normalized : jsstring) :
  validateAndNormalizeUrl text = inr normalized ->
  hasScheme normalized = true
  /\ forallb isUrlChar normalized = true
  /\ existsb isWhiteSpace normalized = false.
Proof.
  intros H. destruct (normalized_shape _ H) as [Hs Hc].
  split; [exact Hs|]. split; [exact Hc|].
  apply not_true_is_false. intros He. apply existsb_exists in He.
  destruct He as [c [Hin Hw]]. rewrite forallb_forall in Hc.
  rewrite (urlChar_not_space _ (Hc _ Hin)) in Hw. discriminate Hw.
Qed.

Lemma validateAndNormalizeUrl_shape_witness :
  validateAndNormalizeUrl (js " example.com/a?b=1 ") = inr (js "https://example.com/a?b=1")
  /\ hasScheme (js "https://example.com/a?b=1") = true
  /\ existsb isWhiteSpace (js "https://example.com/a?b=1") = false.
Proof.
  assert (H : validateAndNormalizeUrl (js " example.com/a?b=1 ")
              = inr (js "https://example.com/a?b=1")) by (vm_compute; reflexivity).
  destruct (validateAndNormalizeUrl_shape _ H) as [Hs [_ Hw]].
  split; [exact H|]. split; [exact Hs | exact Hw].
Defined.

(* ===================================================================== *)
(** * The store calls of a request *)
(* ===================================================================== *)

Section StoreCalls.

Context {S : Type} (prisma : PrismaClient S).

Lemma callsOf_recording (A : Type) (call : StoreCall) (m : Promise S A) (s : S) :
  callsOf (recording call m) s = [call].
Proof. unfold callsOf, recording. cbn [fst snd]. destruct (m s). reflexivity. Qed.

Lemma feed_calls_aux (filterNeedle : option jsstring) (skip take : option Z) (s : S) :
  callsOf (feed (prisma := traced prisma) filterNeedle skip take) s = []
  \/ exists args,
      callsOf (feed (prisma := traced prisma) filterNeedle skip take) s
      = [CallLinkFindMany args].
Proof.
  unfold callsOf. rewrite feed_run.
  destruct ((nullish take 30 <? 1)%Z || (50 <? nullish take 30)%Z); [left; reflexivity|].
  destruct (nullish skip 0 <? 0)%Z; [left; reflexivity|].
  right. eexists.
  apply (callsOf_recording (CallLinkFindMany _) (link_findMany _) s).
Qed.

(** X7: [feed] asks the store at most once, and only for a page: when it
    does, it is a [findMany] with [take] between 1 and 50 and a [skip] that
    is not negative. *)
Theorem feed_calls (filterNeedle : option jsstring) (skip take : option Z) (s : S) :
  callsOf (feed (prisma := traced prisma) filterNeedle skip take) s = []
  \/ exists args,
      callsOf (feed (prisma := traced prisma) filterNeedle skip take) s
      = [CallLinkFindMany args]
      /\ (1 <= findMany_take args <= 50)%Z
      /\ (0 <= findMany_skip args)%Z
      /\ findMany_take args = nullish take 30%Z
      /\ findMany_skip args = nullish skip 0%Z.
Proof.
  unfold callsOf. rewrite feed_run.
  destruct (Z.ltb_spec (nullish take 30%Z) 1); [left; reflexivity|].
  destruct (Z.ltb_spec 50 (nullish take 30%Z)); [left; reflexivity|].
  destruct (Z.ltb_spec (nullish skip 0%Z) 0); [left; reflexivity|].
  right. cbn [orb]. eexists. split.
  - apply (callsOf_recording (CallLinkFindMany _) (link_findMany _) s).
  - cbn [findMany_take findMany_skip]. repeat split; lia.
Qed.

(** X8: the resolvers that read ([feed], [link], [comment], [Link.comments]
    and [Comment.link]) make at most one store call, and never one that
    creates a row. *)
Theorem reads_never_create (s : S) :
  let quiet (calls : list StoreCall) :=
    (List.length calls <= 1)%nat /\ existsb isCreate calls = false in
  (forall filterNeedle skip take,
      quiet (callsOf (feed (prisma := traced prisma) filterNeedle skip take) s))
  /\ (forall id, quiet (callsOf (link (prisma := traced prisma) id) s))
  /\ (forall id, quiet (callsOf (comment (prisma := traced prisma) id) s))
  /\ (forall parent, quiet (callsOf (Link_comments (prisma := traced prisma) parent) s))
  /\ (forall parent, quiet (callsOf (Comment_link (prisma := traced prisma) parent) s)).
Proof.
  intros quiet. unfold quiet. split; [|repeat split].
  - intros filterNeedle skip take.
    destruct (feed_calls_aux filterNeedle skip take s) as [->|[args ->]];
      simpl; auto.
  - unfold link. cbn [link_findUnique traced]. rewrite callsOf_recording. simpl. lia.
  - unfold link. cbn [link_findUnique traced]. rewrite callsOf_recording. reflexivity.
  - unfold comment. cbn [comment_findUnique traced]. rewrite callsOf_recording. simpl. lia.
  - unfold comment. cbn [comment_findUnique traced]. rewrite callsOf_recording. reflexivity.
  - unfold Link_comments. cbn [comment_findMany traced]. rewrite callsOf_recording.
    simpl. lia.
  - unfold Link_comments. cbn [comment_findMany traced]. rewrite callsOf_recording.
    reflexivity.
  - unfold Comment_link. cbn [link_findUnique traced]. rewrite callsOf_recording.
    simpl. lia.
  - unfold Comment_link. cbn [link_findUnique traced]. rewrite callsOf_recording.
    reflexivity.
Qed.

End StoreCalls.

Section WriteCalls.

Context {S : Type} (prisma : PrismaClient S).

(** X9: [postLink] makes no store call when the url does not normalize or
    the description is empty; in every other case it makes exactly one, a
    create with the normalized url and the given description, whether the
    store then resolves or rejects.  The url it sends starts with a scheme
    and holds no white space. *)
Theorem postLink_calls (url description : jsstring) (s : S) :
  match validateAndNormalizeUrl url with
  | inl _ => callsOf (postLink (prisma := traced prisma) url description) s = []
  | inr normalizedUrl =>
      hasScheme normalizedUrl = true
      /\ existsb isWhiteSpace normalizedUrl = false
      /\ callsOf (postLink (prisma := traced prisma) url description) s
         = match description with
           | [] => []
           | _ :: _ => [CallLinkCreate {| data_url := normalizedUrl;
                                          data_description := description |}]
           end
  end.
Proof.
  unfold callsOf, postLink, bind, sync, reject, resolve.
  destruct (validateAndNormalizeUrl url) as [e|normalizedUrl] eqn:Hu; [reflexivity|].
  destruct (normalized_shape _ Hu) as [Hs Hc].
  split; [exact Hs|]. split.
  - apply not_true_is_false. intros He. apply existsb_exists in He.
    destruct He as [x [Hin Hw]]. rewrite forallb_forall in Hc.
    rewrite (urlChar_not_space _ (Hc _ Hin)) in Hw. discriminate Hw.
  - destruct description as [|c d]; [reflexivity|].
    cbn [link_create traced]. unfold recording. cbn [fst snd].
    destruct (link_create _ s) as [[e|l] s']; reflexivity.
Qed.

(** X10: [postCommentOnLink] makes no store call when [parseIntSafe] does
    not accept the link id or the body is empty; in every other case it
    makes exactly one, a create with the given body and the number
    [parseIntSafe] returned, whether the store then resolves or rejects.
    That number is a non-negative integer or the positive infinity, never
    NaN. *)
Theorem postCommentOnLink_calls (linkId body : jsstring) (s : S) :
  match parseIntSafe linkId with
  | None => callsOf (postCommentOnLink (prisma := traced prisma) linkId body) s = []
  | Some n =>
      ((exists v, n = Num v /\ (0 <= v)%Z) \/ n = Infinity false)
      /\ callsOf (postCommentOnLink (prisma := traced prisma) linkId body) s
         = match body with
           | [] => []
           | _ :: _ => [CallCommentCreate {| data_body := body; data_linkId := n |}]
           end
  end.
Proof.
  unfold callsOf, postCommentOnLink, bind, catch, reject, resolve.
  destruct (parseIntSafe linkId) as [n|] eqn:Hp; [|reflexivity].
  pose proof (parseIntSafe_accepts _ Hp) as [Hd Hn].
  split.
  - rewrite Hn. apply toNumber_range, valueOf_nonneg, allDigits_forallb, Hd.
  - destruct body as [|c b]; [reflexivity|].
    rewrite (parseInt_digits _ Hd), <- Hn.
    cbn [comment_create traced]. unfold recording. cbn [fst snd].
    destruct (comment_create _ s) as [[e|a] s']; [destruct (isForeignKeyViolation e)|];
      reflexivity.
Qed.

(** X11: whatever the store does, [postCommentOnLink] never rejects with
    the store's foreign-key error. *)
Theorem postCommentOnLink_hides_foreign_key (linkId body : jsstring) (s : S) (err : Thrown) :
  fst (postCommentOnLink linkId body s) = inl err ->
  isForeignKeyViolation err = false.
Proof.
  unfold postCommentOnLink, bind, catch, reject, resolve.
  destruct (parseIntSafe linkId); [|intros [= <-]; reflexivity].
  destruct body as [|c b]; [intros [= <-]; reflexivity|].
  destruct (comment_create _ s) as [[e|a] s']; cbn [fst]; [|discriminate].
  destruct (isForeignKeyViolation e) eqn:He; cbn [fst]; intros [= <-];
    [reflexivity | exact He].
Qed.

End WriteCalls.

Lemma postCommentOnLink_hides_foreign_key_witness :
  fst (postCommentOnLink (prisma := Store.client N.eqb) (js "999") (js "hi") exampleDb)
  = inl (GraphQLError (nonExistingLink (js "999") (js "'.")))
  /\ isForeignKeyViolation (GraphQLError (nonExistingLink (js "999") (js "'."))) = false.
Proof.
  assert (H : fst (postCommentOnLink (prisma := Store.client N.eqb)
                     (js "999") (js "hi") exampleDb)
              = inl (GraphQLError (nonExistingLink (js "999") (js "'."))))
    by (vm_compute; reflexivity).
  split; [exact H|].
  exact (postCommentOnLink_hides_foreign_key (Store.client N.eqb) _ _ _ H).
Defined.

(* ===================================================================== *)
(** * Requests against the reference store *)
(* ===================================================================== *)

Lemma find_app (A : Type) (f : A -> bool) (l1 l2 : list A) :
  find f (l1 ++ l2) = match find f l1 with Some x => Some x | None => find f l2 end.
Proof.
  induction l1 as [|x l1 IH]; simpl; [reflexivity|].
  destruct (f x); [reflexivity | exact IH].
Qed.

Lemma find_fresh (ls : list Link) (z : Z) :
  Forall (fun l => link_id l <> z) ls -> find (fun l => (link_id l =? z)%Z) ls = None.
Proof.
  induction 1 as [|x ls Hx _ IH]; simpl; [reflexivity|].
  destruct (Z.eqb_spec (link_id x) z); [contradiction | exact IH].
Qed.

(** With unique ids a lookup finds the stored link itself. *)
Lemma find_stored (ls : list Link) (l : Link) :
  NoDup (map link_id ls) -> In l ls ->
  find (fun x => (link_id x =? link_id l)%Z) ls = Some l.
Proof.
  induction ls as [|x ls IH]; simpl; intros Hnd Hin; [contradiction|].
  apply NoDup_cons_iff in Hnd. destruct Hnd as [Hx Hnd].
  destruct Hin as [->|Hin].
  - rewrite Z.eqb_refl. reflexivity.
  - destruct (Z.eqb_spec (link_id x) (link_id l)) as [E|_]; [|exact (IH Hnd Hin)].
    exfalso. apply Hx. rewrite E. apply in_map, Hin.
Qed.

Lemma empty_integrity : integrity Store.empty.
Proof.
  unfold integrity. simpl. split; [exact empty_wf|].
  repeat split; constructor.
Qed.

Lemma createLink_integrity (data : LinkCreateInput) (db : Store.Db) :
  integrity db -> integrity (snd (Store.createLink data db)).
Proof.
  intros [[Hl [Hc [Hls Hcs]]] [Hnl [Hnc Hfk]]].
  unfold integrity, Store.wf, Store.createLink.
  cbn [snd Store.links Store.comments Store.linkSeq Store.commentSeq].
  repeat match goal with |- _ /\ _ => split end.
  - lia.
  - exact Hc.
  - apply Forall_app. split.
    + eapply Forall_impl; [|exact Hls]. cbv beta. intros l Hid. lia.
    + constructor; [|constructor]. cbn [link_id]. lia.
  - exact Hcs.
  - rewrite map_app. apply NoDup_app; [exact Hnl | repeat constructor; intros [] |].
    cbn [map link_id]. intros a Ha [<-|[]].
    apply in_map_iff in Ha. destruct Ha as [l [E Hin]].
    rewrite Forall_forall in Hls. specialize (Hls _ Hin). lia.
  - exact Hnc.
  - eapply Forall_impl; [|exact Hfk]. cbv beta. intros c Hin.
    rewrite map_app. apply in_or_app. left. exact Hin.
Qed.

Lemma createComment_integrity (data : CommentCreateInput) (db : Store.Db) :
  integrity db -> integrity (snd (Store.createComment data db)).
Proof.
  intros Hi. unfold Store.createComment.
  destruct (Store.findLinkById (data_linkId data) db) as [l|] eqn:Hf; [|exact Hi].
  destruct Hi as [[Hl [Hc [Hls Hcs]]] [Hnl [Hnc Hfk]]].
  assert (Hin : In l (Store.links db)).
  { unfold Store.findLinkById in Hf. destruct (data_linkId data); try discriminate Hf.
    apply find_some in Hf. exact (proj1 Hf). }
  unfold integrity, Store.wf.
  cbn [snd Store.links Store.comments Store.linkSeq Store.commentSeq].
  repeat match goal with |- _ /\ _ => split end.
  - exact Hl.
  - lia.
  - exact Hls.
  - apply Forall_app. split.
    + eapply Forall_impl; [|exact Hcs]. cbv beta. intros c Hid. lia.
    + constructor; [|constructor]. cbn [comment_id]. lia.
  - exact Hnl.
  - rewrite map_app. apply NoDup_app; [exact Hnc | repeat constructor; intros [] |].
    cbn [map comment_id]. intros a Ha [<-|[]].
    apply in_map_iff in Ha. destruct Ha as [c [E Hc']].
    rewrite Forall_forall in Hcs. specialize (Hcs _ Hc'). lia.
  - apply Forall_app. split; [exact Hfk|].
    constructor; [|constructor]. cbn [comment_linkId]. apply in_map, Hin.
Qed.

Section ReferenceRequests.

Variable collate : codeunit -> codeunit -> bool.

Lemma postLink_reference (url description : jsstring) (db : Store.Db) :
  postLink (prisma := Store.client collate) url description db
  = match validateAndNormalizeUrl url with
    | inl e => (inl e, db)
    | inr normalizedUrl =>
        match description with
        | [] => (inl (GraphQLError (js "Cannot post link with empty description.")), db)
        | _ :: _ =>
            (inr (fst (Store.createLink {| data_url := normalizedUrl;
                                           data_description := description |} db)),
             snd (Store.createLink {| data_url := normalizedUrl;
                                      data_description := description |} db))
        end
    end.
Proof.
  unfold postLink, bind, sync, reject, resolve.
  destruct (validateAndNormalizeUrl url); [reflexivity|].
  destruct description; reflexivity.
Qed.

Lemma postCommentOnLink_reference (linkId body : jsstring) (db : Store.Db) :
  allDigits linkId = true -> body <> [] ->
  postCommentOnLink (prisma := Store.client collate) linkId body db
  = match Store.findLinkById (toNumber (valueOf linkId)) db with
    | None => (inl (GraphQLError (nonExistingLink linkId (js "'."))), db)
    | Some _ =>
        Store.createComment {| data_body := body;
                               data_linkId := toNumber (valueOf linkId) |} db
    end.
Proof.
  intros Hd Hb. unfold postCommentOnLink, bind, catch, reject, resolve.
  rewrite (parseIntSafe_digits _ Hd), (parseInt_digits _ Hd).
  destruct body as [|c b]; [congruence|].
  cbn [comment_create Store.client]. unfold Store.createComment.
  cbn [data_linkId data_body].
  destruct (Store.findLinkById (toNumber (valueOf linkId)) db); reflexivity.
Qed.

(** X12: the data model's integrity (positive ids within the sequence,
    unique ids, every comment on a stored link) holds of the empty store
    and is kept by [postLink] and [postCommentOnLink], whatever their
    arguments and whether they succeed or reject. *)
Theorem integrity_preserved (db : Store.Db) :
  integrity db ->
  (forall url description,
      integrity (snd (postLink (prisma := Store.client collate) url description db)))
  /\ (forall linkId body,
         integrity (snd (postCommentOnLink (prisma := Store.client collate) linkId body db))).
Proof.
  intros Hi. split.
  - intros url description. rewrite postLink_reference.
    destruct (validateAndNormalizeUrl url); [exact Hi|].
    destruct description; [exact Hi|]. cbn [snd]. apply createLink_integrity, Hi.
  - intros linkId body.
    destruct (allDigits linkId) eqn:Hd.
    + destruct body as [|c b].
      * unfold postCommentOnLink. rewrite (parseIntSafe_digits _ Hd). exact Hi.
      * rewrite postCommentOnLink_reference; [|exact Hd|discriminate].
        destruct (Store.findLinkById (toNumber (valueOf linkId)) db) eqn:Hf; [|exact Hi].
        apply createComment_integrity, Hi.
    + unfold postCommentOnLink, parseIntSafe. rewrite test_re_digits, Hd. exact Hi.
Qed.

End ReferenceRequests.

Lemma example_integrity : integrity exampleDb.
Proof.
  unfold integrity. split; [exact example_wf|]. simpl.
  split; [repeat constructor; simpl; intuition discriminate|].
  split; [repeat constructor; simpl; intuition discriminate|].
  repeat constructor; simpl; auto.
Defined.

Lemma integrity_preserved_witness :
  integrity exampleDb
  /\ integrity (snd (postCommentOnLink (prisma := Store.client N.eqb)
                       (js "1") (js "third") exampleDb)).
Proof.
  split; [exact example_integrity|].
  exact (proj2 (integrity_preserved N.eqb example_integrity) (js "1") (js "third")).
Defined.

Section RoundTrips.

Variable collate : codeunit -> codeunit -> bool.

(** X13: a link that [postLink] created is found again by [link] under
    the decimal text of its id, as long as ids stay below [2^53]. *)
Theorem postLink_then_link (db db' : Store.Db) (url description : jsstring)
        (newLink : Link) :
  integrity db ->
  (Store.linkSeq db < 2 ^ 53)%Z ->
  postLink (prisma := Store.client collate) url description db = (inr newLink, db') ->
  link (prisma := Store.client collate) (Number_toString (link_id newLink)) db'
  = (inr (Some newLink), db').
Proof.
  intros [[Hl [_ [Hls _]]] _] Hseq Hrun.
  rewrite postLink_reference in Hrun.
  destruct (validateAndNormalizeUrl url) as [e|n]; [discriminate Hrun|].
  destruct description as [|c d]; [discriminate Hrun|].
  injection Hrun as <- <-.
  unfold link. cbn [Store.createLink fst snd link_id].
  rewrite parseInt_Number_toString by lia.
  cbn [link_findUnique Store.client Store.findLinkById Store.links].
  rewrite find_app, find_fresh.
  - cbn [find link_id]. rewrite Z.eqb_refl. reflexivity.
  - eapply Forall_impl; [|exact Hls]. cbv beta. intros l Hid. lia.
Qed.

(** X14: a comment posted under the decimal text of a stored link's id is
    accepted, carries the given body and that link's id, resolves to that
    link through [Comment.link], and is among the link's
    [Link.comments]. *)
Theorem postCommentOnLink_existing (db : Store.Db) (l : Link) (body : jsstring) :
  integrity db ->
  In l (Store.links db) ->
  (link_id l <= 2 ^ 53)%Z ->
  body <> [] ->
  exists newComment db',
    postCommentOnLink (prisma := Store.client collate)
      (Number_toString (link_id l)) body db = (inr newComment, db')
    /\ comment_body newComment = body
    /\ comment_linkId newComment = link_id l
    /\ Comment_link (prisma := Store.client collate) newComment db'
       = (inr (Some l), db')
    /\ exists cs,
        Link_comments (prisma := Store.client collate) l db' = (inr cs, db')
        /\ In newComment cs.
Proof.
  intros [[_ [_ [Hls _]]] [Hnl _]] Hin Hid Hb.
  assert (Hpos : (0 < link_id l)%Z).
  { rewrite Forall_forall in Hls. specialize (Hls _ Hin). lia. }
  destruct (Number_toString_digits (z := link_id l)) as [Hd Hv]; [lia|].
  rewrite postCommentOnLink_reference; [|exact Hd|exact Hb].
  rewrite Hv, toNumber_exact by lia.
  unfold Store.createComment. cbn [Store.findLinkById data_linkId].
  rewrite (find_stored _ _ Hnl Hin). cbn [data_body].
  eexists. eexists. split; [reflexivity|].
  split; [reflexivity|]. split; [reflexivity|]. split.
  - unfold Comment_link. cbn [link_findUnique Store.client Store.findLinkById
                              comment_linkId Store.links].
    rewrite (find_stored _ _ Hnl Hin). reflexivity.
  - eexists. split; [reflexivity|].
    cbn [Store.listCommentsForLink orderBy_createdAt where_linkId Store.comments].
    apply (Permutation_in _ (Permutation_sym (sortDesc_perm _))).
    apply filter_In. split.
    + apply in_or_app. right. left. reflexivity.
    + cbn [comment_linkId]. apply Z.eqb_refl.
Qed.

(** X15: a comment on a link id that passes [parseIntSafe] but names no
    stored link is rejected and the store stays as it was: with "Cannot
    post empty comment." when the body is empty, and with the
    non-existing-link message that ends in a full stop otherwise. *)
Theorem postCommentOnLink_missing (db : Store.Db) (linkId body : jsstring) (n : number) :
  parseIntSafe linkId = Some n ->
  Store.findLinkById n db = None ->
  postCommentOnLink (prisma := Store.client collate) linkId body db
  = (inl (GraphQLError
            match body with
            | [] => js "Cannot post empty comment."
            | _ :: _ => nonExistingLink linkId (js "'.")
            end), db).
Proof.
  intros Hp Hf. destruct body as [|c b].
  - unfold postCommentOnLink. rewrite Hp. reflexivity.
  - apply parseIntSafe_accepts in Hp. destruct Hp as [Hd ->].
    rewrite postCommentOnLink_reference; [|exact Hd|discriminate].
    rewrite Hf. reflexivity.
Qed.

Lemma feed_reference (filterNeedle : option jsstring) (skip take : Z) (db : Store.Db) :
  (1 <= take <= 50)%Z -> (0 <= skip)%Z ->
  feed (prisma := Store.client collate) filterNeedle (Some skip) (Some take) db
  = (inr (firstn (Z.to_nat take)
            (skipn (Z.to_nat skip)
               (filter (Store.whereHolds collate
                          match filterNeedle with
                          | Some (c :: needle) =>
                              OR [description (contains (c :: needle));
                                  url (contains (c :: needle))]
                          | _ => WhereAny
                          end) (Store.links db)))), db).
Proof.
  intros Ht Hs. rewrite feed_run. cbn [nullish].
  destruct (Z.ltb_spec take 1); [lia|].
  destruct (Z.ltb_spec 50 take); [lia|].
  destruct (Z.ltb_spec skip 0); [lia|].
  reflexivity.
Qed.

(** X16: [feed] never returns more than 50 links, and never more than the
    [take] it was given. *)
Theorem feed_page_bound (filterNeedle : option jsstring) (skip take : option Z)
        (db db' : Store.Db) (page : list Link) :
  feed (prisma := Store.client collate) filterNeedle skip take db = (inr page, db') ->
  (Z.of_nat (List.length page) <= nullish take 30)%Z
  /\ (List.length page <= 50)%nat
  /\ db' = db.
Proof.
  rewrite feed_run.
  destruct (Z.ltb_spec (nullish take 30%Z) 1); [discriminate|].
  destruct (Z.ltb_spec 50 (nullish take 30%Z)); [discriminate|].
  destruct (Z.ltb_spec (nullish skip 0%Z) 0); [discriminate|].
  cbn [orb link_findMany Store.client]. intros Hrun. injection Hrun as <- <-.
  unfold Store.listLinks. cbn [findMany_take findMany_skip findMany_where].
  match goal with
  | |- context [firstn ?n ?l] => pose proof (firstn_le_length n l) as Hlen
  end.
  repeat split; lia.
Qed.

Lemma firstn_pages (A : Type) (a b : nat) (l : list A) :
  firstn a l ++ firstn b (skipn a l) = firstn (a + b) l.
Proof.
  revert l. induction a as [|a IH]; intros l; [reflexivity|].
  destruct l as [|x l]; simpl.
  - rewrite firstn_nil. reflexivity.
  - rewrite IH. reflexivity.
Qed.

(** X17: consecutive pages of [feed] under one filter join into the page
    that spans them. *)
Theorem feed_pages_join (filterNeedle : option jsstring) (skip a b : Z) (db : Store.Db) :
  (0 <= skip)%Z -> (1 <= a)%Z -> (1 <= b)%Z -> (a + b <= 50)%Z ->
  exists p1 p2 p12,
    feed (prisma := Store.client collate) filterNeedle (Some skip) (Some a) db
    = (inr p1, db)
    /\ feed (prisma := Store.client collate) filterNeedle (Some (skip + a)%Z) (Some b) db
       = (inr p2, db)
    /\ feed (prisma := Store.client collate) filterNeedle (Some skip) (Some (a + b)%Z) db
       = (inr p12, db)
    /\ p1 ++ p2 = p12.
Proof.
  intros Hs Ha Hb Hab.
  rewrite !feed_reference by lia.
  eexists. eexists. eexists.
  split; [reflexivity|]. split; [reflexivity|]. split; [reflexivity|].
  rewrite (Z2Nat.inj_add skip a), (Z2Nat.inj_add a b) by lia.
  rewrite (Nat.add_comm (Z.to_nat skip)), <- skipn_skipn.
  apply firstn_pages.
Qed.

End RoundTrips.

Lemma postLink_then_link_witness :
  integrity Store.empty
  /\ (Store.linkSeq Store.empty < 2 ^ 53)%Z
  /\ link (prisma := Store.client N.eqb) (js "1")
       (snd (postLink (prisma := Store.client N.eqb)
               (js "graphql-yoga.com") (js "desc") Store.empty))
     = (inr (Some {| link_id := 1; link_createdAt := 0;
                     link_description := js "desc";
                     link_url := js "https://graphql-yoga.com" |}),
        snd (postLink (prisma := Store.client N.eqb)
               (js "graphql-yoga.com") (js "desc") Store.empty)).
Proof.
  assert (Hs : (Store.linkSeq Store.empty < 2 ^ 53)%Z) by (simpl; lia).
  split; [exact empty_integrity|]. split; [exact Hs|].
  assert (Hrun : postLink (prisma := Store.client N.eqb)
                   (js "graphql-yoga.com") (js "desc") Store.empty
                 = (inr {| link_id := 1; link_createdAt := 0;
                           link_description := js "desc";
                           link_url := js "https://graphql-yoga.com" |},
                    snd (postLink (prisma := Store.client N.eqb)
                           (js "graphql-yoga.com") (js "desc") Store.empty)))
    by (vm_compute; reflexivity).
  exact (@postLink_then_link N.eqb _ _ _ _ _ empty_integrity Hs Hrun).
Defined.

Lemma postCommentOnLink_existing_witness :
  integrity exampleDb
  /\ exists newComment db',
      postCommentOnLink (prisma := Store.client N.eqb) (js "2") (js "hello") exampleDb
      = (inr newComment, db')
      /\ comment_linkId newComment = 2%Z.
Proof.
  split; [exact example_integrity|].
  assert (Hin : In {| link_id := 2; link_createdAt := 20;
                      link_description := js "An example";
                      link_url := js "https://example.com" |} (Store.links exampleDb))
    by (simpl; auto).
  assert (Hid : (2 <= 2 ^ 53)%Z) by lia.
  assert (Hb : js "hello" <> []) by discriminate.
  destruct (@postCommentOnLink_existing N.eqb _ _ _ example_integrity Hin Hid Hb)
    as [c [db' [Hrun [_ [Hl _]]]]].
  exists c, db'. split; [exact Hrun | exact Hl].
Defined.

Lemma postCommentOnLink_missing_witness :
  parseIntSafe (js "999") = Some (Num 999)
  /\ Store.findLinkById (Num 999) exampleDb = None
  /\ postCommentOnLink (prisma := Store.client N.eqb) (js "999") (js "hi") exampleDb
     = (inl (GraphQLError (nonExistingLink (js "999") (js "'."))), exampleDb)
  /\ postCommentOnLink (prisma := Store.client N.eqb) (js "999") [] exampleDb
     = (inl (GraphQLError (js "Cannot post empty comment.")), exampleDb).
Proof.
  assert (Hp : parseIntSafe (js "999") = Some (Num 999)) by (vm_compute; reflexivity).
  assert (Hf : Store.findLinkById (Num 999) exampleDb = None) by reflexivity.
  split; [exact Hp|]. split; [exact Hf|]. split.
  - exact (@postCommentOnLink_missing N.eqb _ _ (js "hi") _ Hp Hf).
  - exact (@postCommentOnLink_missing N.eqb _ _ [] _ Hp Hf).
Defined.

Lemma feed_page_bound_witness :
  feed (prisma := Store.client N.eqb) None None (Some 1%Z) exampleDb
  = (inr [ {| link_id := 1; link_createdAt := 10;
              link_description := js "The easiest way of setting up a GraphQL server";
              link_url := js "https://graphql-yoga.com" |} ], exampleDb)
  /\ (1 <= 50)%nat.
Proof.
  assert (H : feed (prisma := Store.client N.eqb) None None (Some 1%Z) exampleDb
              = (inr [ {| link_id := 1; link_createdAt := 10;
                          link_description :=
                            js "The easiest way of setting up a GraphQL server";
                          link_url := js "https://graphql-yoga.com" |} ], exampleDb))
    by (vm_compute; reflexivity).
  split; [exact H|].
  exact (proj1 (proj2 (@feed_page_bound N.eqb _ _ _ _ _ _ H))).
Defined.

Lemma feed_pages_join_witness :
  (0 <= 0)%Z /\ (1 <= 1)%Z /\ (1 + 1 <= 50)%Z
  /\ exists p1 p2 p12,
      feed (prisma := Store.client N.eqb) None (Some 0%Z) (Some 1%Z) exampleDb
      = (inr p1, exampleDb)
      /\ feed (prisma := Store.client N.eqb) None (Some (0 + 1)%Z) (Some 1%Z) exampleDb
         = (inr p2, exampleDb)
      /\ feed (prisma := Store.client N.eqb) None (Some 0%Z) (Some (1 + 1)%Z) exampleDb
         = (inr p12, exampleDb)
      /\ p1 ++ p2 = p12.
Proof.
  assert (H0 : (0 <= 0)%Z) by lia. assert (H1 : (1 <= 1)%Z) by lia.
  assert (H2 : (1 + 1 <= 50)%Z) by lia.
  split; [exact H0|]. split; [exact H1|]. split; [exact H2|].
  exact (@feed_pages_join N.eqb None _ _ _ exampleDb H0 H1 H1 H2).
Defined.

(* ===================================================================== *)
(** * The earlier revisions *)
(* ===================================================================== *)

Lemma wellNumbered_NoDup (links : list ArraySchema.Link) :
  wellNumbered links -> NoDup (map ArraySchema.id links).
Proof.
  intros Hw. apply NoDup_nth_error. intros i j Hi E.
  rewrite length_map in Hi. rewrite !nth_error_map in E.
  destruct (nth_error links i) as [li|] eqn:Ei;
    [|apply nth_error_None in Ei; lia].
  destruct (nth_error links j) as [lj|] eqn:Ej; [|discriminate E].
  simpl in E. injection E as E.
  rewrite (Hw _ _ Ei), (Hw _ _ Ej) in E. apply app_inv_head in E.
  apply Number_toString_inj in E; lia.
Qed.

Lemma wellNumbered_initial : wellNumbered ArraySchema.links.
Proof.
  intros i l H. destruct i as [|i]; simpl in H.
  - injection H as <-. reflexivity.
  - destruct i; discriminate H.
Qed.

(** X18: in the array revision [postLink] appends the link it returns to
    what [feed] shows and numbers it by its position, so that ids stay
    pairwise different. *)
Theorem array_postLink_numbering (links : list ArraySchema.Link)
        (url description : jsstring) :
  wellNumbered links ->
  ArraySchema.feed (snd (ArraySchema.postLink url description links))
  = ArraySchema.feed links ++ [fst (ArraySchema.postLink url description links)]
  /\ ArraySchema.url (fst (ArraySchema.postLink url description links)) = url
  /\ ArraySchema.description (fst (ArraySchema.postLink url description links))
     = description
  /\ wellNumbered (snd (ArraySchema.postLink url description links))
  /\ NoDup (map ArraySchema.id (snd (ArraySchema.postLink url description links))).
Proof.
  intros Hw.
  assert (Hw' : wellNumbered (snd (ArraySchema.postLink url description links))).
  { unfold ArraySchema.postLink. cbn [snd]. intros i l Hi.
    destruct (Nat.lt_ge_cases i (List.length links)) as [Hlt|Hge].
    - rewrite nth_error_app1 in Hi by exact Hlt. exact (Hw _ _ Hi).
    - rewrite nth_error_app2 in Hi by exact Hge.
      destruct (i - List.length links)%nat as [|k] eqn:Ek.
      + simpl in Hi. injection Hi as <-. cbn [ArraySchema.id].
        replace i with (List.length links) by lia. reflexivity.
      + destruct k; discriminate Hi. }
  split; [reflexivity|]. split; [reflexivity|]. split; [reflexivity|].
  split; [exact Hw' | exact (@wellNumbered_NoDup _ Hw')].
Qed.

Lemma array_postLink_numbering_witness :
  wellNumbered ArraySchema.links
  /\ NoDup (map ArraySchema.id
              (snd (ArraySchema.postLink (js "example.com") (js "desc") ArraySchema.links))).
Proof.
  split; [exact wellNumbered_initial|].
  exact (proj2 (proj2 (proj2 (proj2
           (@array_postLink_numbering _ (js "example.com") (js "desc")
              wellNumbered_initial))))).
Defined.

(** A URL that [validateAndNormalizeUrl] returned is returned again as it
    is. *)
Lemma normalize_fixed (text normalized : jsstring) :
  validateAndNormalizeUrl text = inr normalized ->
  validateAndNormalizeUrl normalized = inr normalized.
Proof.
  unfold validateAndNormalizeUrl. rewrite !test_re_scheme.
  destruct (hasScheme (trim text)) eqn:Hs.
  - destruct (test re_url (trim text)) eqn:Hu; cbn [negb]; [|discriminate].
    intros H. apply inr_inj in H. subst normalized.
    rewrite trim_idem, Hs, Hu. reflexivity.
  - destruct (test re_domain (trim text)) eqn:Hd; cbn [negb]; [|discriminate].
    intros H. apply inr_inj in H. subst normalized.
    rewrite (trim_prefixed (k := js "https://") (t := trim text)
               eq_refl ltac:(discriminate) eq_refl (trim_idem text)).
    rewrite hasScheme_https, (re_domain_re_url _ Hd). reflexivity.
Qed.

Section Revisions.

Context {S : Type} (prisma : PrismaClient S).

(** X19: on arguments it accepts, the validating [postLink] does what the
    unvalidated [postLink] of the earlier revision does with the
    normalized url; on a url that is already normalized the two agree. *)
Theorem postLink_over_plain (url description normalizedUrl : jsstring) (s : S) :
  validateAndNormalizeUrl url = inr normalizedUrl ->
  description <> [] ->
  postLink url description s = PlainSchema.postLink normalizedUrl description s
  /\ postLink normalizedUrl description s
     = PlainSchema.postLink normalizedUrl description s.
Proof.
  intros Hu Hd. pose proof (normalize_fixed _ Hu) as Hn.
  unfold postLink, PlainSchema.postLink, bind, sync.
  rewrite Hu, Hn. destruct description; [congruence|]. split; reflexivity.
Qed.

(** X20: on arguments it accepts, the validating [postCommentOnLink] does
    what the unvalidated one of the earlier revision does, except that a
    foreign-key error of the store comes back as the non-existing-link
    message. *)
Theorem postCommentOnLink_over_plain (linkId body : jsstring) (n : number) (s : S) :
  parseIntSafe linkId = Some n ->
  body <> [] ->
  postCommentOnLink linkId body s
  = match PlainSchema.postCommentOnLink linkId body s with
    | (inr newComment, s') => (inr newComment, s')
    | (inl err, s') =>
        (inl (if isForeignKeyViolation err
              then GraphQLError (nonExistingLink linkId (js "'."))
              else err), s')
    end.
Proof.
  intros Hp Hb.
  unfold postCommentOnLink, PlainSchema.postCommentOnLink, bind, catch, reject, resolve.
  rewrite Hp. destruct body as [|b0 body]; [congruence|].
  destruct (comment_create _ s) as [[e|newComment] s']; [|reflexivity].
  destruct (isForeignKeyViolation e); reflexivity.
Qed.

(** X21: the unvalidated [postCommentOnLink] reads a link id leniently, so
    text after the digits is ignored and the comment goes to the link the
    digits name; the validating one rejects such an id without a store
    call. *)
Theorem plain_postCommentOnLink_lenient (ds rest body : jsstring) (s : S) :
  allDigits ds = true ->
  match rest with c :: _ => isAsciiDigit c = false | [] => False end ->
  hexPrefix (ds ++ rest) = false ->
  PlainSchema.postCommentOnLink (ds ++ rest) body s
  = PlainSchema.postCommentOnLink ds body s
  /\ postCommentOnLink (ds ++ rest) body s
     = (inl (GraphQLError (nonExistingLink (ds ++ rest) (js "'"))), s).
Proof.
  intros Hd Hr Hh. split.
  - unfold PlainSchema.postCommentOnLink.
    rewrite (parseInt_digits _ Hd).
    rewrite (parseInt_digits_prefix (radix := None) ds rest Hd); [reflexivity| |auto].
    destruct rest; [contradiction | exact Hr].
  - unfold postCommentOnLink, parseIntSafe. rewrite test_re_digits.
    assert (E : allDigits (ds ++ rest) = false).
    { destruct rest as [|c rest]; [contradiction|].
      destruct ds as [|d ds]; [discriminate Hd|].
      cbn [app allDigits]. change (forallb isAsciiDigit ((d :: ds) ++ c :: rest) = false).
      rewrite forallb_app. cbn [forallb]. rewrite Hr, andb_false_r. reflexivity. }
    rewrite E. reflexivity.
Qed.

End Revisions.

Lemma postLink_over_plain_witness :
  validateAndNormalizeUrl (js "example.com") = inr (js "https://example.com")
  /\ js "desc" <> []
  /\ postLink (prisma := Store.client N.eqb) (js "example.com") (js "desc") exampleDb
     = PlainSchema.postLink (prisma := Store.client N.eqb)
         (js "https://example.com") (js "desc") exampleDb.
Proof.
  assert (Hu : validateAndNormalizeUrl (js "example.com") = inr (js "https://example.com"))
    by (vm_compute; reflexivity).
  assert (Hd : js "desc" <> []) by discriminate.
  split; [exact Hu|]. split; [exact Hd|].
  exact (proj1 (@postLink_over_plain _ (Store.client N.eqb) _ _ _ exampleDb Hu Hd)).
Defined.

Lemma postCommentOnLink_over_plain_witness :
  parseIntSafe (js "999") = Some (Num 999)
  /\ js "hi" <> []
  /\ fst (PlainSchema.postCommentOnLink (prisma := Store.client N.eqb)
            (js "999") (js "hi") exampleDb)
     = inl (PrismaClientKnownRequestError (js "P2003") (js "Foreign key constraint failed"))
  /\ fst (postCommentOnLink (prisma := Store.client N.eqb) (js "999") (js "hi") exampleDb)
     = inl (GraphQLError (nonExistingLink (js "999") (js "'."))).
Proof.
  assert (Hp : parseIntSafe (js "999") = Some (Num 999)) by (vm_compute; reflexivity).
  assert (Hb : js "hi" <> []) by discriminate.
  split; [exact Hp|]. split; [exact Hb|]. split; [vm_compute; reflexivity|].
  rewrite (@postCommentOnLink_over_plain _ (Store.client N.eqb) _ _ _ exampleDb Hp Hb).
  vm_compute. reflexivity.
Defined.

Lemma plain_postCommentOnLink_lenient_witness :
  allDigits (js "1") = true
  /\ isAsciiDigit (ch "a") = false
  /\ hexPrefix (js "1" ++ js "abc") = false
  /\ PlainSchema.postCommentOnLink (prisma := Store.client N.eqb)
       (js "1" ++ js "abc") (js "hi") exampleDb
     = PlainSchema.postCommentOnLink (prisma := Store.client N.eqb)
         (js "1") (js "hi") exampleDb.
Proof.
  assert (Hd : allDigits (js "1") = true) by reflexivity.
  assert (Hr : match js "abc" with c :: _ => isAsciiDigit c = false | [] => False end)
    by reflexivity.
  assert (Hh : hexPrefix (js "1" ++ js "abc") = false) by reflexivity.
  split; [exact Hd|]. split; [reflexivity|]. split; [exact Hh|].
  exact (proj1 (@plain_postCommentOnLink_lenient _ (Store.client N.eqb)
                  (js "1") (js "abc") (js "hi") exampleDb Hd Hr Hh)).
Defined.

(** X22: in a store that keeps the data model's integrity, [Comment.link]
    of a stored comment is never absent: it is the stored link the comment
    names. *)
Theorem Comment_link_present (collate : codeunit -> codeunit -> bool)
        (db : Store.Db) (c : Comment) :
  integrity db ->
  In c (Store.comments db) ->
  exists l,
    Comment_link (prisma := Store.client collate) c db = (inr (Some l), db)
    /\ In l (Store.links db)
    /\ link_id l = comment_linkId c.
Proof.
  intros [_ [Hnl [_ Hfk]]] Hin.
  rewrite Forall_forall in Hfk. specialize (Hfk _ Hin).
  apply in_map_iff in Hfk. destruct Hfk as [l [E Hl]].
  exists l. split; [|split; assumption].
  unfold Comment_link. cbn [link_findUnique Store.client Store.findLinkById].
  rewrite <- E, (find_stored _ _ Hnl Hl). reflexivity.
Qed.

Lemma Comment_link_present_witness :
  integrity exampleDb
  /\ exists l,
      Comment_link (prisma := Store.client N.eqb)
        {| comment_id := 2; comment_createdAt := 40;
           comment_body := js "second"; comment_linkId := 1 |} exampleDb
      = (inr (Some l), exampleDb)
      /\ link_id l = 1%Z.
Proof.
  split; [exact example_integrity|].
  assert (Hin : In {| comment_id := 2; comment_createdAt := 40;
                      comment_body := js "second"; comment_linkId := 1 |}
                   (Store.comments exampleDb)) by (simpl; auto).
  destruct (@Comment_link_present N.eqb _ _ example_integrity Hin) as [l [Hrun [_ Hid]]].
  exists l. split; [exact Hrun | exact Hid].
Defined.
